(** * Text_Analysis: a shallow embedding of [main.py]

    The program loads a document, prints a chunked summary and then answers
    questions about the document in a read-eval loop.  The embedding keeps
    the shape of the Python source:

    - a Python [str] is a list of Unicode code points;
    - Python integers are [Z];
    - an exception is a value of [exn], and a computation that may raise
      returns a [result];
    - console output and collaborator invocations are recorded, in order,
      in a trace of [event]s; console input is a list of pending lines;
    - the parts of the Python runtime that live outside [main.py] (Unicode
      case folding, the file system, the two model pipelines) are the fields
      of the [Runtime] interface. *)

From Stdlib Require Import String Ascii Bool ZArith NArith Lia List.
Import ListNotations.

Set Implicit Arguments.

(** ** The pieces of the Python runtime the program uses *)

Module Py.

(** A code point. *)
Definition char := N.

(** A Python [str]. *)
Definition str := list char.

(** A string literal of the source (the literals below are ASCII). *)
Definition lit (s : string) : str :=
  map N_of_ascii (list_ascii_of_string s).

Definition char_eqb (a b : char) : bool := N.eqb a b.

(** [a == b] on strings. *)
Fixpoint str_eqb (a b : str) : bool :=
  match a, b with
  | [], [] => true
  | x :: a', y :: b' => char_eqb x y && str_eqb a' b'
  | _, _ => false
  end.

(** Exceptions the program can meet. *)
Inductive exn : Type :=
| ValueError (msg : string)
| IndexError (msg : string)
| EOFError
| ExternalError (msg : string).

Inductive result (A : Type) : Type :=
| Ok (a : A)
| Raise (e : exn).

Arguments Ok {A} a.
Arguments Raise {A} e.

Definition rbind {A B : Type} (r : result A) (k : A -> result B) : result B :=
  match r with
  | Ok a => k a
  | Raise e => Raise e
  end.

(** [len(s)]. *)
Definition len {A : Type} (s : list A) : Z := Z.of_nat (length s).

(** Clamping of one slice bound against a sequence of length [n]: a
    negative bound counts from the end, and both ends are clipped. *)
Definition slice_bound (n i : Z) : Z :=
  if (i <? 0)%Z then Z.max 0 (i + n) else Z.min i n.

(** [s[a:b]]. *)
Definition slice {A : Type} (s : list A) (a b : Z) : list A :=
  let lo := slice_bound (len s) a in
  let hi := slice_bound (len s) b in
  if (lo <? hi)%Z
  then firstn (Z.to_nat (hi - lo)) (skipn (Z.to_nat lo) s)
  else [].

(** The number of items of [range(start, stop, step)], [step <> 0]. *)
Definition range_len (start stop step : Z) : Z :=
  if (0 <? step)%Z
  then (if (start <? stop)%Z then (stop - start - 1) / step + 1 else 0)%Z
  else (if (stop <? start)%Z then (start - stop - 1) / (- step) + 1 else 0)%Z.

(** [range(start, stop, step)], as the list of its items. *)
Definition range (start stop step : Z) : result (list Z) :=
  if (step =? 0)%Z
  then Raise (ValueError "range() arg 3 must not be zero")
  else Ok (map (fun k => (start + Z.of_nat k * step)%Z)
               (seq 0 (Z.to_nat (range_len start stop step)))).

(** [s.startswith(p)]. *)
Fixpoint startswith (p s : str) : bool :=
  match p, s with
  | [], _ => true
  | _ :: _, [] => false
  | x :: p', y :: s' => char_eqb x y && startswith p' s'
  end.

(** [p in s] on strings: [p] occurs in [s] as a contiguous substring. *)
Fixpoint contains (p s : str) : bool :=
  startswith p s ||
  match s with
  | [] => false
  | _ :: s' => contains p s'
  end.

(** [sep.join(parts)]. *)
Fixpoint join (sep : str) (parts : list str) : str :=
  match parts with
  | [] => []
  | [p] => p
  | p :: more => p ++ sep ++ join sep more
  end.

(** [s.split(sep)] for a separator of one character. *)
Fixpoint split (sep : char) (s : str) : list str :=
  match s with
  | [] => [[]]
  | c :: s' =>
      if char_eqb c sep then [] :: split sep s'
      else match split sep s' with
           | [] => [[c]]
           | w :: ws => (c :: w) :: ws
           end
  end.

(** [xs[-1]]. *)
Fixpoint index_last {A : Type} (xs : list A) : result A :=
  match xs with
  | [] => Raise (IndexError "list index out of range")
  | [x] => Ok x
  | _ :: more => index_last more
  end.

(** The scan of [max(xs, key=key)] for a boolean key: the running maximum
    is replaced only by an item whose key is strictly greater. *)
Fixpoint max_scan {A : Type} (key : A -> bool) (best : A) (xs : list A) : A :=
  match xs with
  | [] => best
  | x :: more =>
      if negb (key best) && key x
      then max_scan key x more
      else max_scan key best more
  end.

(** [max(xs, key=key)]. *)
Definition max_by {A : Type} (key : A -> bool) (xs : list A) : result A :=
  match xs with
  | [] => Raise (ValueError "max() arg is an empty sequence")
  | x :: more => Ok (max_scan key x more)
  end.

(** [any(f(x) for x in xs)]. *)
Definition any {A : Type} (f : A -> bool) (xs : list A) : bool := existsb f xs.

(** Truth value of [None] or a string, as tested by [if document_text:]. *)
Definition truthy (v : option str) : bool :=
  match v with
  | None => false
  | Some [] => false
  | Some (_ :: _) => true
  end.

End Py.

Import Py.

(** ** What the program observes and what it is given *)

(** One observable action of a run, in program order. *)
Inductive event : Type :=
| EvPrompt (msg : str)
    (* [input(msg)]: the prompt is written and one line is read *)
| EvPrint (line : str)
    (* [print(...)]: the arguments joined by one space *)
| EvQA (question context : str)
    (* [qa_pipeline(question=..., context=...)] *)
| EvSummarizer (text : str) (max_length min_length : Z).
    (* [summarizer(text, max_length=..., min_length=..., do_sample=False)] *)

(** The environment of [main.py]: library functions and the two pipelines
    created at import time.  A pipeline either raises or yields the string
    the program reads from its return value ([answer["answer"]], respectively
    [summary[0]["summary_text"]]); both are deterministic (the summarizer is
    always run with [do_sample=False]), hence functions of their arguments. *)
Class Runtime : Type := {
  lower : str -> str;                        (* [str.lower] *)
  strip : str -> str;                        (* [str.strip] *)
  os_path_exists : str -> bool;              (* [os.path.exists] *)
  fitz_open : str -> result (list str);      (* page texts of a PDF, in page order *)
  docx_Document : str -> result (list str);  (* paragraph texts of a DOCX, in order *)
  open_read : str -> result str;             (* contents of a UTF-8 text file *)
  qa_pipeline : str -> str -> result str;
  summarizer : str -> Z -> Z -> result str
}.

(** A computation that prints, calls collaborators and may raise: the trace
    it leaves and its outcome. *)
Definition M (A : Type) : Type := (list event * result A)%type.

Definition ret {A : Type} (a : A) : M A := ([], Ok a).

Definition raise {A : Type} (e : exn) : M A := ([], Raise e).

Definition bind {A B : Type} (m : M A) (k : A -> M B) : M B :=
  match m with
  | (t, Ok a) => let (t', r) := k a in (t ++ t', r)
  | (t, Raise e) => (t, Raise e)
  end.

Definition lift {A : Type} (r : result A) : M A := ([], r).

Definition emit (e : event) : M unit := ([e], Ok tt).

Declare Scope py_scope.
Delimit Scope py_scope with py.
Notation "x <- m ;; k" := (bind m (fun x => k))
  (at level 61, m at next level, right associativity) : py_scope.
Notation "m ;; k" := (bind m (fun _ => k))
  (at level 61, right associativity) : py_scope.
Open Scope py_scope.

(** [print(a, b, ...)]. *)
Definition print (args : list str) : M unit :=
  emit (EvPrint (join (lit " ") args)).

(** ** The program *)

Definition nl : char := 10%N.
Definition dot : char := 46%N.
Definition cross_mark : char := 10060%N.          (* U+274C *)
Definition check_mark : char := 9989%N.           (* U+2705 *)
Definition speech_balloon : char := 128172%N.     (* U+1F4AC *)

Definition short_keywords : list str :=
  [lit "who"; lit "when"; lit "where"; lit "how many"; lit "how much"].

Definition long_keywords : list str :=
  [lit "explain"; lit "describe"; lit "what are"; lit "how does";
   lit "why"; lit "impact"; lit "effects"].

(** The chunking expression of [summarize_document] and [find_best_chunk]:
    [[text[i:i + max_chunk_size] for i in range(0, len(text), max_chunk_size)]]. *)
Definition chunks (text : str) (max_chunk_size : Z) : result (list str) :=
  rbind (range 0 (len text) max_chunk_size)
        (fun r => Ok (map (fun i => slice text i (i + max_chunk_size)) r)).

(** Default values of the keyword parameters. *)
Definition summarize_document_max_chunk_size : Z := 800.
Definition chat_with_document_max_chunk_size : Z := 1500.

Definition unsupported_message : str :=
  cross_mark :: lit " Unsupported format. Only PDF, DOCX, TXT are allowed.".

Section Program.

Context {RT : Runtime}.

Definition extract_text_from_pdf (file_path : str) : M str :=
  pages <- lift (fitz_open file_path) ;;
  ret (join [nl] pages).

Definition extract_text_from_docx (file_path : str) : M str :=
  paras <- lift (docx_Document file_path) ;;
  ret (join [nl] paras).

Definition extract_text_from_txt (file_path : str) : M str :=
  lift (open_read file_path).

Definition load_document (file_path : str) : M (option str) :=
  last_part <- lift (index_last (split dot file_path)) ;;
  let ext := lower last_part in
  if str_eqb ext (lit "pdf") then
    t <- extract_text_from_pdf file_path ;; ret (Some t)
  else if str_eqb ext (lit "docx") then
    t <- extract_text_from_docx file_path ;; ret (Some t)
  else if str_eqb ext (lit "txt") then
    t <- extract_text_from_txt file_path ;; ret (Some t)
  else
    print [unsupported_message] ;;
    ret None.

(** One invocation of the summarization pipeline. *)
Definition call_summarizer (text : str) (max_length min_length : Z) : M str :=
  emit (EvSummarizer text max_length min_length) ;;
  lift (summarizer text max_length min_length).

(** One invocation of the question-answering pipeline. *)
Definition call_qa (question context : str) : M str :=
  emit (EvQA question context) ;;
  lift (qa_pipeline question context).

(** The [for chunk in chunks] loop of [summarize_document]; [summary_texts]
    is the list built so far. *)
Fixpoint summarize_chunks (cs : list str) (summary_texts : list str) : M (list str) :=
  match cs with
  | [] => ret summary_texts
  | chunk :: more =>
      summary <- call_summarizer chunk 200 50 ;;
      summarize_chunks more (summary_texts ++ [summary])
  end.

Definition summarize_document (text : str) (max_chunk_size : Z) : M str :=
  print [nl :: lit "Generating summary..."] ;;
  cs <- lift (chunks text max_chunk_size) ;;
  summary_texts <- summarize_chunks cs [] ;;
  let final_summary := join (lit " ") summary_texts in
  print [nl :: lit "Summary:"; final_summary] ;;
  ret final_summary.

Definition classify_question_length (question : str) : str :=
  if any (fun keyword => contains keyword (lower question)) short_keywords then
    lit "short"
  else if any (fun keyword => contains keyword (lower question)) long_keywords then
    lit "long"
  else
    lit "medium".

Definition summarize_text (text : str) (max_length min_length : Z) : M str :=
  call_summarizer text max_length min_length.

Definition find_best_chunk (text query : str) (max_chunk_size : Z) : result str :=
  rbind (chunks text max_chunk_size)
        (fun cs => max_by (fun chunk => contains (lower query) (lower chunk)) cs).

(** The body of the [while True] loop of [chat_with_document] after the
    test for [exit]. *)
Definition answer_query (text query : str) (max_chunk_size : Z) : M unit :=
  let answer_length := classify_question_length query in
  best_chunk <- lift (find_best_chunk text query max_chunk_size) ;;
  if str_eqb answer_length (lit "short") then
    answer <- call_qa query best_chunk ;;
    print [nl :: lit "Answer (Short & Precise):"; answer]
  else if str_eqb answer_length (lit "long") then
    print [nl :: lit "Generating a detailed response..."] ;;
    detailed_answer <- summarize_text best_chunk 500 150 ;;
    print [nl :: lit "Answer (Detailed):"; detailed_answer]
  else
    print [nl :: lit "Generating a well-explained response..."] ;;
    medium_answer <- summarize_text best_chunk 300 100 ;;
    print [nl :: lit "Answer (Medium-Length Explanation):"; medium_answer].

(** A computation that also reads lines from the console: trace, outcome
    and the lines left unread. *)
Definition IO (A : Type) : Type := (list event * result A * list str)%type.

Definition ask_prompt : str := nl :: lit "Ask a question (or type 'exit' to quit): ".

(** The [while True] loop of [chat_with_document].  Every iteration reads one
    line; [input] raises [EOFError] when none is left. *)
Fixpoint chat_loop (text : str) (max_chunk_size : Z) (stdin : list str) : IO unit :=
  match stdin with
  | [] => ([EvPrompt ask_prompt], Raise EOFError, [])
  | query :: rest =>
      if str_eqb (lower query) (lit "exit") then
        ([EvPrompt ask_prompt; EvPrint (lit "Goodbye!")], Ok tt, rest)
      else
        match answer_query text query max_chunk_size with
        | (t, Raise e) => (EvPrompt ask_prompt :: t, Raise e, rest)
        | (t, Ok _) =>
            match chat_loop text max_chunk_size rest with
            | (t', r, rest') => (EvPrompt ask_prompt :: t ++ t', r, rest')
            end
        end
  end.

Definition chat_banner : str :=
  nl :: speech_balloon :: lit " Chatbot ready! Ask a question based on the document.".

Definition chat_with_document (text : str) (max_chunk_size : Z) (stdin : list str) : IO unit :=
  match chat_loop text max_chunk_size stdin with
  | (t, r, rest) => (EvPrint chat_banner :: t, r, rest)
  end.

Definition path_prompt : str := lit "Enter the document path (PDF, DOCX, TXT): ".

(** The [if __name__ == "__main__":] block. *)
Definition main (stdin : list str) : IO unit :=
  match stdin with
  | [] => ([EvPrompt path_prompt], Raise EOFError, [])
  | line :: rest =>
      let file_path := strip line in
      if negb (os_path_exists file_path) then
        ([EvPrompt path_prompt; EvPrint (cross_mark :: lit " File not found.")], Ok tt, rest)
      else
        match load_document file_path with
        | (t, Raise e) => (EvPrompt path_prompt :: t, Raise e, rest)
        | (t, Ok document_text) =>
            match document_text with
            | Some text =>
                if truthy document_text then
                  match
                    (print [nl :: check_mark :: lit " Document loaded successfully!"] ;;
                     summarize_document text summarize_document_max_chunk_size)
                  with
                  | (t1, Raise e) => (EvPrompt path_prompt :: t ++ t1, Raise e, rest)
                  | (t1, Ok _) =>
                      match chat_with_document text chat_with_document_max_chunk_size rest with
                      | (t2, r, rest') => (EvPrompt path_prompt :: t ++ t1 ++ t2, r, rest')
                      end
                  end
                else (EvPrompt path_prompt :: t, Ok tt, rest)
            | None => (EvPrompt path_prompt :: t, Ok tt, rest)
            end
        end
  end.

End Program.

(** ** Vocabulary of the statements *)

(** [p] occurs in [s] as a contiguous substring. *)
Definition Substring (p s : str) : Prop :=
  exists pre post, s = pre ++ p ++ post.

(** The [k]-th chunk of [text] for chunks of [s] characters. *)
Definition chunk_at (text : str) (s k : nat) : str :=
  firstn s (skipn (k * s) text).

(** The number of chunks [range(0, len(text), size)] gives rise to. *)
Definition chunk_count (text : str) (size : Z) : nat :=
  Z.to_nat (range_len 0 (len text) size).

(** No collaborator is invoked in a trace. *)
Fixpoint no_collaborator_call (t : list event) : bool :=
  match t with
  | [] => true
  | EvQA _ _ :: _ => false
  | EvSummarizer _ _ _ :: _ => false
  | _ :: more => no_collaborator_call more
  end.

(** The number of prompts issued in a trace. *)
Fixpoint count_prompts (t : list event) : nat :=
  match t with
  | [] => 0
  | EvPrompt _ :: more => S (count_prompts more)
  | _ :: more => count_prompts more
  end.

(** The trace of a session in which the queries [qs] are answered one after
    the other: a prompt, then what [answer_query] leaves. *)
Definition session_trace {RT : Runtime} (text : str) (max_chunk_size : Z)
    (qs : list str) : list event :=
  flat_map (fun q => EvPrompt ask_prompt :: fst (answer_query text q max_chunk_size)) qs.

(** What fault isolation in the chat loop would mean for a query whose
    handling raises: something is reported, and the loop goes on with the
    next prompt. *)
Definition failure_is_isolated {RT : Runtime} (text : str) (max_chunk_size : Z)
    (query : str) (rest : list str) : Prop :=
  forall t e,
    answer_query text query max_chunk_size = (t, Raise e) ->
    exists report,
      chat_loop text max_chunk_size (query :: rest) =
        (EvPrompt ask_prompt :: t ++ report
           ++ fst (fst (chat_loop text max_chunk_size rest)),
         snd (fst (chat_loop text max_chunk_size rest)),
         snd (chat_loop text max_chunk_size rest)).

(** ** A concrete runtime, for running the program on ASCII inputs *)

Definition ascii_lower_char (c : char) : char :=
  if (65 <=? c)%N && (c <=? 90)%N then (c + 32)%N else c.

(** [str.lower] on ASCII text. *)
Definition ascii_lower (s : str) : str := map ascii_lower_char s.

Definition ascii_isspace (c : char) : bool :=
  (c =? 32)%N || ((9 <=? c)%N && (c <=? 13)%N).

Fixpoint lstrip (s : str) : str :=
  match s with
  | c :: s' => if ascii_isspace c then lstrip s' else s
  | [] => []
  end.

(** [str.strip] on ASCII text. *)
Definition ascii_strip (s : str) : str := rev (lstrip (rev (lstrip s))).

(** A small file system: a listing of text files with their contents. *)
Definition sample_files : list (str * str) :=
  [ (lit "notes.txt", lit "The cat sat on the mat today");
    (lit "empty.txt", []);
    (lit "paper.rtf", lit "{\rtf1 hello}") ].

Fixpoint lookup_file (files : list (str * str)) (path : str) : option str :=
  match files with
  | [] => None
  | (p, contents) :: more =>
      if str_eqb p path then Some contents else lookup_file more path
  end.

(** A runtime over [sample_files], with the two pipelines left open. *)
Definition sample_runtime
    (qa : str -> str -> result str) (summ : str -> Z -> Z -> result str) : Runtime :=
  {| lower := ascii_lower;
     strip := ascii_strip;
     os_path_exists := fun p => match lookup_file sample_files p with
                                | Some _ => true
                                | None => false
                                end;
     fitz_open := fun _ => Raise (ExternalError "cannot open document");
     docx_Document := fun _ => Raise (ExternalError "package not found");
     open_read := fun p => match lookup_file sample_files p with
                           | Some contents => Ok contents
                           | None => Raise (ExternalError "no such file")
                           end;
     qa_pipeline := qa;
     summarizer := summ |}.

(** Pipelines that answer: the answer is the first word-sized span of the
    context, the summary is the head of the text within the length band. *)
Definition echo_qa (question context : str) : result str :=
  Ok (slice context 0 7).

Definition echo_summarizer (text : str) (max_length min_length : Z) : result str :=
  Ok (slice text 0 (Z.min max_length 5)).

(** Pipelines whose model backend is unavailable. *)
Definition down_qa (question context : str) : result str :=
  Raise (ExternalError "model unavailable").

Definition down_summarizer (text : str) (max_length min_length : Z) : result str :=
  Raise (ExternalError "model unavailable").

Definition working_runtime : Runtime := sample_runtime echo_qa echo_summarizer.

Definition broken_runtime : Runtime := sample_runtime down_qa down_summarizer.

(** ** Further vocabulary and sample pipelines *)

(** The number of collaborator invocations in a trace. *)
Fixpoint count_calls (t : list event) : nat :=
  match t with
  | [] => 0
  | EvQA _ _ :: more => S (count_calls more)
  | EvSummarizer _ _ _ :: more => S (count_calls more)
  | _ :: more => count_calls more
  end.

(** The document text handed to the collaborators in a trace, call by call:
    the context of a question-answering call, the text of a summarizer call. *)
Fixpoint call_contexts (t : list event) : list str :=
  match t with
  | [] => []
  | EvQA _ context :: more => context :: call_contexts more
  | EvSummarizer text _ _ :: more => text :: call_contexts more
  | _ :: more => call_contexts more
  end.

(** The lines printed in a trace. *)
Fixpoint printed (t : list event) : list str :=
  match t with
  | [] => []
  | EvPrint line :: more => line :: printed more
  | _ :: more => printed more
  end.

(** A summarizer that refuses an input that starts with a blank. *)
Definition picky_summarizer (text : str) (max_length min_length : Z) : result str :=
  if startswith (lit " ") text then Raise (ExternalError "malformed input")
  else Ok (slice text 0 5).

Definition picky_runtime : Runtime := sample_runtime echo_qa picky_summarizer.

Definition success_message : str :=
  nl :: check_mark :: lit " Document loaded successfully!".

(** A document of 1800 characters, three chunks of the summary. *)
Definition long_sample : str :=
  concat (repeat (lit "The cat sat on the mat today. ") 60).

(** A summarizer that refuses an input that starts with "at ". *)
Definition fussy_summarizer (text : str) (max_length min_length : Z) : result str :=
  if startswith (lit "at ") text then Raise (ExternalError "malformed input")
  else Ok (slice text 0 5).

(** A runtime with one document of each format. *)
Definition library_runtime : Runtime :=
  {| lower := ascii_lower;
     strip := ascii_strip;
     os_path_exists := fun p =>
       str_eqb p (lit "Report.PDF") || str_eqb p (lit "minutes.docx")
       || str_eqb p (lit "long.txt");
     fitz_open := fun p =>
       if str_eqb p (lit "Report.PDF")
       then Ok [lit "Page one"; lit "Page two"; lit "Page three"]
       else Raise (ExternalError "cannot open document");
     docx_Document := fun p =>
       if str_eqb p (lit "minutes.docx")
       then Ok [lit "Agenda"; lit "Budget"]
       else Raise (ExternalError "package not found");
     open_read := fun p =>
       if str_eqb p (lit "long.txt") then Ok long_sample
       else Raise (ExternalError "no such file");
     qa_pipeline := echo_qa;
     summarizer := fussy_summarizer |}.

(** * Properties *)

(** ** Facts about the runtime pieces *)

Lemma char_eqb_eq (a b : char) : char_eqb a b = true <-> a = b.
Proof. unfold char_eqb. apply N.eqb_eq. Qed.

Lemma str_eqb_eq (a b : str) : str_eqb a b = true <-> a = b.
Proof.
  revert b. induction a as [|x a IH]; intros [|y b]; simpl; split;
    try congruence; try reflexivity.
  - rewrite andb_true_iff, char_eqb_eq, IH. intros [-> ->]. reflexivity.
  - intros E. injection E as -> ->.
    rewrite andb_true_iff, char_eqb_eq, IH. split; reflexivity.
Qed.

Lemma str_eqb_refl (a : str) : str_eqb a a = true.
Proof. apply str_eqb_eq. reflexivity. Qed.

Lemma str_eqb_neq (a b : str) : str_eqb a b = false <-> a <> b.
Proof.
  rewrite <- str_eqb_eq. destruct (str_eqb a b); split; congruence.
Qed.

Lemma startswith_prefix (p s : str) :
  startswith p s = true <-> exists post, s = p ++ post.
Proof.
  revert s. induction p as [|x p IH]; intros s; simpl.
  - split; [intros _; exists s; reflexivity | reflexivity].
  - destruct s as [|y s].
    + split; [discriminate | intros [post E]; discriminate].
    + rewrite andb_true_iff, char_eqb_eq, IH. split.
      * intros [-> [post ->]]. exists post. reflexivity.
      * intros [post E]. injection E as -> ->. split; [reflexivity | eauto].
Qed.

(** The [in] operator on strings decides [Substring]. *)
Lemma contains_Substring (p s : str) :
  contains p s = true <-> Substring p s.
Proof.
  unfold Substring. induction s as [|y s IH].
  - simpl. rewrite orb_false_r, startswith_prefix. split.
    + intros [post E]. exists [], post. exact E.
    + intros [pre [post E]]. destruct pre as [|c pre]; [|discriminate].
      exists post. exact E.
  - cbn [contains]. rewrite orb_true_iff, startswith_prefix, IH. split.
    + intros [[post E] | [pre [post E]]].
      * exists [], post. exact E.
      * exists (y :: pre), post. rewrite E. reflexivity.
    + intros [pre [post E]]. destruct pre as [|c pre].
      * left. exists post. exact E.
      * right. injection E as _ E. exists pre, post. exact E.
Qed.

Lemma contains_not_Substring (p s : str) :
  contains p s = false <-> ~ Substring p s.
Proof.
  rewrite <- contains_Substring. destruct (contains p s); split; congruence.
Qed.

(** [s.split(sep)] never yields the empty list, so [[-1]] is defined. *)
Lemma split_nonempty (sep : char) (s : str) : split sep s <> [].
Proof.
  destruct s as [|c s]; simpl; [discriminate|].
  destruct (char_eqb c sep); [discriminate|].
  destruct (split sep s); discriminate.
Qed.

Lemma index_last_defined (A : Type) (xs : list A) :
  xs <> [] -> exists x, index_last xs = Ok x.
Proof.
  induction xs as [|x xs IH]; [congruence|]. intros _.
  destruct xs as [|y xs]; [exists x; reflexivity|].
  destruct IH as [z E]; [discriminate|]. exists z. exact E.
Qed.

(** The scan of [max] with a boolean key, started on a [best] whose key is
    already true, keeps it. *)
Lemma max_scan_keeps_true (A : Type) (key : A -> bool) (best : A) (xs : list A) :
  key best = true -> max_scan key best xs = best.
Proof.
  intros Hb. induction xs as [|x xs IH]; simpl; [reflexivity|].
  rewrite Hb. simpl. exact IH.
Qed.

(** Started on a [best] whose key is false, the scan moves to the first item
    whose key is true, and stays on [best] when there is none. *)
Lemma max_scan_from_false (A : Type) (key : A -> bool) (best : A) (xs : list A) :
  key best = false ->
  max_scan key best xs =
    match find key xs with
    | Some x => x
    | None => best
    end.
Proof.
  intros Hb. induction xs as [|x xs IH]; simpl; [reflexivity|].
  rewrite Hb. simpl. destruct (key x) eqn:Hx.
  - apply max_scan_keeps_true. exact Hx.
  - exact IH.
Qed.

(** [max(xs, key=key)] with a boolean key is first-match-or-first-item. *)
Lemma max_by_first_match (A : Type) (key : A -> bool) (x : A) (xs : list A) :
  max_by key (x :: xs) =
    Ok match find key (x :: xs) with
       | Some y => y
       | None => x
       end.
Proof.
  simpl. destruct (key x) eqn:Hx.
  - rewrite max_scan_keeps_true by exact Hx. reflexivity.
  - rewrite max_scan_from_false by exact Hx. reflexivity.
Qed.

(** What [find] returns, by position. *)
Lemma find_first_position (A : Type) (f : A -> bool) (xs : list A) (y : A) :
  find f xs = Some y ->
  exists i, nth_error xs i = Some y /\ f y = true /\
            forall j d, (j < i)%nat -> nth_error xs j = Some d -> f d = false.
Proof.
  induction xs as [|x xs IH]; simpl; [discriminate|].
  destruct (f x) eqn:Hx.
  - intros E. injection E as <-. exists 0%nat. repeat split; try assumption.
    intros j d Hj. lia.
  - intros E. destruct (IH E) as [i [Hi [Hy Hlt]]]. exists (S i).
    repeat split; try assumption.
    intros [|j] d Hj; simpl.
    + intros E'. injection E' as <-. exact Hx.
    + apply Hlt. lia.
Qed.

Lemma find_none_all (A : Type) (f : A -> bool) (xs : list A) :
  find f xs = None -> forall d, In d xs -> f d = false.
Proof.
  intros E d Hd. apply (find_none f xs E d Hd).
Qed.

(** [sep.join(parts)] is the first part followed by every further part
    with [sep] in front of it. *)
Lemma join_spaced (sep : str) (parts : list str) :
  join sep parts =
    match parts with
    | [] => []
    | p :: more => p ++ concat (map (fun q => sep ++ q) more)
    end.
Proof.
  induction parts as [|p more IH]; [reflexivity|].
  destruct more as [|q more].
  - simpl. rewrite app_nil_r. reflexivity.
  - change (join sep (p :: q :: more)) with (p ++ sep ++ join sep (q :: more)).
    rewrite IH. cbn [map concat]. rewrite <- app_assoc. reflexivity.
Qed.

(** The length of [sep.join(parts)]: the parts, and one separator between
    each two neighbours. *)
Lemma join_length (sep : str) (parts : list str) :
  len (join sep parts) =
    (len (concat parts) + len sep * (len parts - (if len parts =? 0 then 0 else 1)))%Z.
Proof.
  rewrite join_spaced. destruct parts as [|p more]; [unfold len; simpl; lia|].
  unfold len. cbn [concat length].
  replace (Z.of_nat (S (length more)) =? 0)%Z with false
    by (symmetry; apply Z.eqb_neq; lia).
  rewrite !length_app.
  assert (H : length (concat (map (fun q => sep ++ q) more))
              = (length (concat more) + length sep * length more)%nat).
  { induction more as [|q more IH]; [simpl; lia|].
    cbn [map concat length]. rewrite !length_app, IH. lia. }
  rewrite H. lia.
Qed.

(** ** Chunking *)

Lemma firstn_plus (A : Type) (a b : nat) (l : list A) :
  firstn (a + b) l = firstn a l ++ firstn b (skipn a l).
Proof.
  revert l. induction a as [|a IH]; intros l; simpl; [reflexivity|].
  destruct l as [|x l]; simpl.
  - rewrite firstn_nil. reflexivity.
  - rewrite IH. reflexivity.
Qed.

(** A slice that starts inside the text and has a positive width. *)
Lemma slice_inside (A : Type) (t : list A) (i w : Z) :
  (0 <= i < len t)%Z -> (0 < w)%Z ->
  slice t i (i + w) = firstn (Z.to_nat w) (skipn (Z.to_nat i) t).
Proof.
  intros Hi Hw. unfold slice, slice_bound.
  destruct (Z.ltb_spec i 0); [lia|].
  destruct (Z.ltb_spec (i + w) 0); [lia|].
  destruct (Z.ltb_spec (Z.min i (len t)) (Z.min (i + w) (len t))); [|lia].
  replace (Z.min i (len t)) with i by lia.
  destruct (Z.le_gt_cases (i + w) (len t)) as [Hle|Hgt].
  - replace (Z.min (i + w) (len t) - i)%Z with w by lia. reflexivity.
  - assert (Hlen : length (skipn (Z.to_nat i) t) = Z.to_nat (len t - i)).
    { rewrite length_skipn. unfold len. lia. }
    rewrite !firstn_all2; [reflexivity | |]; rewrite Hlen; lia.
Qed.

(** The chunk count, bracketed: the chunks before the last one do not reach
    the end of the text, and all of them together do. *)
Lemma chunk_count_bounds (text : str) (size : Z) :
  (0 < size)%Z -> text <> [] ->
  let n := chunk_count text size in
  let s := Z.to_nat size in
  (1 <= n /\ (n - 1) * s < length text /\ length text <= n * s)%nat.
Proof.
  intros Hs Hne n s. subst n s. unfold chunk_count, range_len.
  assert (HL : (0 < len text)%Z).
  { unfold len. destruct text; [congruence | simpl; lia]. }
  destruct (Z.ltb_spec 0 size); [|lia].
  destruct (Z.ltb_spec 0 (len text)); [|lia].
  replace (len text - 0 - 1)%Z with (len text - 1)%Z by lia.
  pose proof (Z.mul_div_le (len text - 1) size Hs) as Hlo.
  pose proof (Z.mul_succ_div_gt (len text - 1) size Hs) as Hhi.
  assert (Hq : (0 <= (len text - 1) / size)%Z) by (apply Z.div_pos; lia).
  set (q := ((len text - 1) / size)%Z) in *.
  unfold len in *.
  split; [lia|]. split.
  - apply Nat2Z.inj_lt. rewrite Nat2Z.inj_mul, Nat2Z.inj_sub by lia.
    rewrite !Z2Nat.id by lia. simpl Z.of_nat. nia.
  - apply Nat2Z.inj_le. rewrite Nat2Z.inj_mul.
    rewrite !Z2Nat.id by lia. nia.
Qed.

Lemma chunk_count_empty (size : Z) : chunk_count [] size = 0%nat.
Proof.
  unfold chunk_count, range_len. simpl.
  destruct (0 <? size)%Z; [reflexivity|].
  destruct (Z.ltb_spec 0 0); [lia | reflexivity].
Qed.

(** For a positive chunk size the chunking expression evaluates, without
    raising, to the list of the chunks [0 .. chunk_count - 1]. *)
Lemma chunks_positive (text : str) (size : Z) :
  (0 < size)%Z ->
  chunks text size =
    Ok (map (chunk_at text (Z.to_nat size)) (seq 0 (chunk_count text size))).
Proof.
  intros Hs. unfold chunks, range.
  destruct (Z.eqb_spec size 0); [lia|]. simpl. f_equal.
  rewrite map_map. fold (chunk_count text size).
  apply map_ext_in. intros k Hk. apply in_seq in Hk.
  destruct text as [|c text'] eqn:Et.
  { rewrite chunk_count_empty in Hk. lia. }
  rewrite <- Et in *.
  assert (Hne : text <> []) by (rewrite Et; discriminate).
  pose proof (chunk_count_bounds Hs Hne) as [_ [Hlo _]]. simpl in Hlo.
  assert (Hk' : (k * Z.to_nat size < length text)%nat) by nia.
  simpl Z.add. rewrite slice_inside; [| unfold len; nia | lia].
  unfold chunk_at. f_equal. f_equal. lia.
Qed.

(** Concatenating the first [n] chunks gives the first [n * s] characters. *)
Lemma concat_chunk_prefix (text : str) (s n : nat) :
  concat (map (chunk_at text s) (seq 0 n)) = firstn (n * s) text.
Proof.
  induction n as [|n IH]; [reflexivity|].
  rewrite seq_S, map_app, concat_app, IH. simpl.
  rewrite app_nil_r. unfold chunk_at.
  replace (s + n * s)%nat with (n * s + s)%nat by lia.
  rewrite firstn_plus. reflexivity.
Qed.

(** All the chunks together make up the text. *)
Lemma chunks_concat (text : str) (size : Z) :
  (0 < size)%Z ->
  concat (map (chunk_at text (Z.to_nat size)) (seq 0 (chunk_count text size))) = text.
Proof.
  intros Hs. rewrite concat_chunk_prefix.
  assert (Hcase : text = [] \/ text <> []).
  { destruct text; [left; reflexivity | right; discriminate]. }
  destruct Hcase as [-> | Hne].
  - apply firstn_nil.
  - apply firstn_all2. apply (chunk_count_bounds Hs Hne).
Qed.

Lemma chunk_at_length (text : str) (s k : nat) :
  length (chunk_at text s k) = Nat.min s (length text - k * s).
Proof. unfold chunk_at. rewrite length_firstn, length_skipn. reflexivity. Qed.

Lemma nth_error_chunk (text : str) (s n i : nat) (c : str) :
  nth_error (map (chunk_at text s) (seq 0 n)) i = Some c ->
  (i < n)%nat /\ c = chunk_at text s i.
Proof.
  intros E. assert (Hi : (i < n)%nat).
  { assert (H : nth_error (map (chunk_at text s) (seq 0 n)) i <> None) by congruence.
    apply nth_error_Some in H. rewrite length_map, length_seq in H. exact H. }
  split; [exact Hi|].
  rewrite nth_error_map, nth_error_seq in E.
  destruct (Nat.ltb_spec i n); [|lia]. simpl in E. congruence.
Qed.

(** The length of the last chunk, from where it starts. *)
Lemma last_chunk_length (L size q r : Z) :
  (0 < size)%Z -> (0 <= q)%Z -> (0 < r <= size)%Z -> (L = q * size + r)%Z ->
  r = (if L mod size =? 0 then size else L mod size)%Z.
Proof.
  intros Hs Hq Hr HL. destruct (Z.eq_dec r size) as [E|NE].
  - assert (Hm : (L mod size = 0)%Z).
    { symmetry. apply (Z.mod_unique L size (q + 1)); lia. }
    rewrite Hm. simpl. exact E.
  - assert (Hm : (L mod size = r)%Z).
    { symmetry. apply (Z.mod_unique L size q); lia. }
    rewrite Hm. destruct (Z.eqb_spec r 0); [lia | reflexivity].
Qed.

(** C3. For every text and every positive chunk size the chunking expression
    [[text[i:i+S] for i in range(0, len(text), S)]] yields chunks whose
    concatenation, in order, is the text; every chunk but the last has
    length [S]; the last chunk has length [len(text) mod S], or [S] when [S]
    divides [len(text)]; and the empty text has no chunks. *)
Theorem chunks_partition (text : str) (size : Z) :
  (0 < size)%Z ->
  exists cs,
    chunks text size = Ok cs /\
    concat cs = text /\
    (forall i c, (i + 1 < length cs)%nat -> nth_error cs i = Some c ->
                 len c = size) /\
    (forall c, nth_error cs (length cs - 1) = Some c ->
               len c = if (len text mod size =? 0)%Z then size
                       else (len text mod size)%Z) /\
    (text = [] -> cs = []).
Proof.
  intros Hs. eexists. split; [apply chunks_positive; exact Hs|].
  assert (Hcase : text = [] \/ text <> []).
  { destruct text; [left; reflexivity | right; discriminate]. }
  destruct Hcase as [-> | Hne].
  { rewrite chunk_count_empty. simpl.
    repeat split; try reflexivity.
    - intros i c Hi. simpl in Hi. lia.
    - intros c E. discriminate. }
  set (s := Z.to_nat size). set (n := chunk_count text size).
  pose proof (chunk_count_bounds Hs Hne) as [Hn [Hlo Hhi]].
  fold n s in Hn, Hlo, Hhi.
  rewrite length_map, length_seq.
  split; [|split; [|split]].
  - apply chunks_concat. exact Hs.
  - intros i c Hi E. apply nth_error_chunk in E as [_ ->].
    unfold len. rewrite chunk_at_length.
    assert ((i + 1) * s <= (n - 1) * s)%nat by (apply Nat.mul_le_mono_r; lia).
    subst s. lia.
  - intros c E. apply nth_error_chunk in E as [_ ->].
    unfold len at 1. rewrite chunk_at_length.
    assert (Hns : (n * s = (n - 1) * s + s)%nat) by nia.
    apply (@last_chunk_length (len text) size (Z.of_nat (n - 1)));
      unfold len; subst s; lia.
  - intros E. rewrite E in Hne. congruence.
Qed.

(** The chunk list of a non-empty text is non-empty. *)
Lemma chunks_nonempty (text : str) (size : Z) :
  (0 < size)%Z -> text <> [] ->
  exists c cs, chunks text size = Ok (c :: cs).
Proof.
  intros Hs Hne. rewrite chunks_positive by exact Hs.
  pose proof (chunk_count_bounds Hs Hne) as [Hn _]. simpl in Hn.
  destruct (chunk_count text size) as [|n]; [lia|].
  simpl. eauto.
Qed.

(** The chunk list of the empty text is empty unless the size is zero, in
    which case [range] raises. *)
Lemma chunks_empty_text (size : Z) :
  chunks [] size =
    if (size =? 0)%Z then Raise (ValueError "range() arg 3 must not be zero")
    else Ok [].
Proof.
  unfold chunks, range. destruct (size =? 0)%Z; [reflexivity|].
  simpl. fold (chunk_count [] size). rewrite chunk_count_empty. reflexivity.
Qed.

(** Every chunk is at most [size] characters long. *)
Lemma chunks_length_le (text : str) (size : Z) (cs : list str) (c : str) :
  (0 < size)%Z -> chunks text size = Ok cs -> In c cs -> (len c <= size)%Z.
Proof.
  intros Hs E Hc. rewrite chunks_positive in E by exact Hs.
  injection E as <-. apply in_map_iff in Hc as [k [<- _]].
  unfold len. rewrite chunk_at_length. lia.
Qed.

Lemma chunks_partition_witness :
  (0 < 11)%Z /\
  exists cs,
    chunks (lit "The cat sat on the mat today") 11 = Ok cs /\
    concat cs = lit "The cat sat on the mat today" /\
    (forall i c, (i + 1 < length cs)%nat -> nth_error cs i = Some c ->
                 len c = 11%Z) /\
    (forall c, nth_error cs (length cs - 1) = Some c ->
               len c = if (len (lit "The cat sat on the mat today") mod 11 =? 0)%Z
                       then 11%Z
                       else (len (lit "The cat sat on the mat today") mod 11)%Z) /\
    (lit "The cat sat on the mat today" = [] -> cs = []).
Proof.
  split; [lia | apply (@chunks_partition (lit "The cat sat on the mat today") 11); lia].
Defined.

(** ** Chunk selection *)

Section ChunkSelection.

Context {RT : Runtime}.

(** C1. For every non-empty text, every query and every positive chunk size,
    [find_best_chunk] returns the first chunk, in sequence order, whose
    lowercased text contains the lowercased query; when no chunk contains
    it, the first chunk of the sequence is returned. *)
Theorem find_best_chunk_first_match (text query : str) (size : Z) :
  text <> [] -> (0 < size)%Z ->
  exists cs c,
    chunks text size = Ok cs /\
    find_best_chunk text query size = Ok c /\
    ((exists i,
        nth_error cs i = Some c /\
        Substring (lower query) (lower c) /\
        forall j d, (j < i)%nat -> nth_error cs j = Some d ->
                    ~ Substring (lower query) (lower d))
     \/
     ((forall d, In d cs -> ~ Substring (lower query) (lower d)) /\
      nth_error cs 0 = Some c)).
Proof.
  intros Hne Hs.
  destruct (chunks_nonempty Hs Hne) as [c0 [cs' E]].
  unfold find_best_chunk. rewrite E. cbn [rbind].
  rewrite max_by_first_match.
  set (key := fun chunk : str => contains (lower query) (lower chunk)).
  destruct (find key (c0 :: cs')) as [c|] eqn:Hf.
  - exists (c0 :: cs'), c. split; [reflexivity|]. split; [reflexivity|].
    left. destruct (find_first_position _ _ Hf) as [i [Hi [Hc Hlt]]].
    exists i. split; [exact Hi|]. split.
    + apply contains_Substring. exact Hc.
    + intros j d Hj Hd. apply contains_not_Substring. exact (Hlt j d Hj Hd).
  - exists (c0 :: cs'), c0. split; [reflexivity|]. split; [reflexivity|].
    right. split; [|reflexivity].
    intros d Hd. apply contains_not_Substring.
    exact (find_none_all _ _ Hf d Hd).
Qed.

(** On the empty text [find_best_chunk] raises [ValueError], whatever the
    query and the chunk size: [range] refuses a zero step, and [max] refuses
    the empty chunk list. *)
Lemma find_best_chunk_empty_text (query : str) (size : Z) :
  exists msg, find_best_chunk [] query size = Raise (ValueError msg).
Proof.
  unfold find_best_chunk. rewrite chunks_empty_text.
  destruct (size =? 0)%Z; simpl; eauto.
Qed.

End ChunkSelection.

Lemma find_best_chunk_first_match_witness :
  lit "The cat sat on the mat" <> [] /\ (0 < 11)%Z /\
  exists cs c,
    chunks (lit "The cat sat on the mat") 11 = Ok cs /\
    @find_best_chunk working_runtime (lit "The cat sat on the mat") (lit "MAT") 11 = Ok c /\
    ((exists i,
        nth_error cs i = Some c /\
        Substring (@lower working_runtime (lit "MAT")) (@lower working_runtime c) /\
        forall j d, (j < i)%nat -> nth_error cs j = Some d ->
                    ~ Substring (@lower working_runtime (lit "MAT"))
                                (@lower working_runtime d))
     \/
     ((forall d, In d cs ->
                 ~ Substring (@lower working_runtime (lit "MAT"))
                             (@lower working_runtime d)) /\
      nth_error cs 0 = Some c)).
Proof.
  split; [discriminate|]. split; [lia|].
  apply (@find_best_chunk_first_match working_runtime
           (lit "The cat sat on the mat") (lit "MAT") 11);
    [discriminate | lia].
Defined.

(** The selector on the chunks of the specification's example. *)
Example selector_cat_mat :
  max_by (fun chunk => contains (ascii_lower (lit "mat")) (ascii_lower chunk))
         [lit "The cat sat"; lit "on the mat today"]
  = Ok (lit "on the mat today").
Proof. reflexivity. Qed.

(** ** Question classification *)

Section Classification.

Context {RT : Runtime}.

Lemma any_Substring (keywords : list str) (s : str) :
  any (fun keyword => contains keyword s) keywords = true <->
  exists k, In k keywords /\ Substring k s.
Proof.
  unfold any. rewrite existsb_exists. split.
  - intros [k [Hin Hc]]. exists k. split; [exact Hin|].
    apply contains_Substring. exact Hc.
  - intros [k [Hin Hs]]. exists k. split; [exact Hin|].
    apply contains_Substring. exact Hs.
Qed.

Lemma any_no_Substring (keywords : list str) (s : str) :
  any (fun keyword => contains keyword s) keywords = false <->
  forall k, In k keywords -> ~ Substring k s.
Proof.
  split.
  - intros E k Hin Hs.
    assert (H : any (fun keyword => contains keyword s) keywords = true).
    { apply any_Substring. exists k. split; assumption. }
    congruence.
  - intros H. destruct (any _ keywords) eqn:E; [|reflexivity].
    apply any_Substring in E as [k [Hin Hs]]. destruct (H k Hin Hs).
Qed.

(** C4. [classify_question_length] answers "short" when one of the cues
    who / when / where / how many / how much occurs in the lowercased query;
    otherwise "long" when one of explain / describe / what are / how does /
    why / impact / effects occurs in it; otherwise "medium".  A query with
    cues of both lists is therefore "short". *)
Theorem classify_question_length_cues (question : str) :
  short_keywords =
    [lit "who"; lit "when"; lit "where"; lit "how many"; lit "how much"] /\
  long_keywords =
    [lit "explain"; lit "describe"; lit "what are"; lit "how does";
     lit "why"; lit "impact"; lit "effects"] /\
  ((exists k, In k short_keywords /\ Substring k (lower question)) ->
   classify_question_length question = lit "short") /\
  ((forall k, In k short_keywords -> ~ Substring k (lower question)) ->
   (exists k, In k long_keywords /\ Substring k (lower question)) ->
   classify_question_length question = lit "long") /\
  ((forall k, In k short_keywords -> ~ Substring k (lower question)) ->
   (forall k, In k long_keywords -> ~ Substring k (lower question)) ->
   classify_question_length question = lit "medium") /\
  ((exists k, In k short_keywords /\ Substring k (lower question)) ->
   (exists k, In k long_keywords /\ Substring k (lower question)) ->
   classify_question_length question = lit "short").
Proof.
  split; [reflexivity|]. split; [reflexivity|].
  unfold classify_question_length.
  split; [|split; [|split]].
  - intros Hs. apply any_Substring in Hs. rewrite Hs. reflexivity.
  - intros Hn Hl. apply any_no_Substring in Hn. apply any_Substring in Hl.
    rewrite Hn, Hl. reflexivity.
  - intros Hn Hl. apply any_no_Substring in Hn. apply any_no_Substring in Hl.
    rewrite Hn, Hl. reflexivity.
  - intros Hs _. apply any_Substring in Hs. rewrite Hs. reflexivity.
Qed.

(** The class is always one of the three tags. *)
Lemma classify_question_length_range (question : str) :
  classify_question_length question = lit "short" \/
  classify_question_length question = lit "long" \/
  classify_question_length question = lit "medium".
Proof.
  unfold classify_question_length.
  destruct (any _ short_keywords); [left; reflexivity|].
  destruct (any _ long_keywords); [right; left | right; right]; reflexivity.
Qed.

End Classification.

(** A query with a cue of each list: "how many" and "effects". *)
Lemma classify_question_length_cues_witness :
  @classify_question_length working_runtime (lit "How many effects") = lit "short".
Proof.
  apply (@classify_question_length_cues working_runtime (lit "How many effects")).
  - exists (lit "how many"). split.
    + simpl. tauto.
    + exists [], (lit " effects"). reflexivity.
  - exists (lit "effects"). split.
    + simpl. tauto.
    + exists (lit "how many "), []. reflexivity.
Defined.

Example classify_who :
  @classify_question_length working_runtime (lit "Who wrote this report?") = lit "short".
Proof. reflexivity. Qed.

Example classify_explain :
  @classify_question_length working_runtime (lit "Explain the impact of the policy") = lit "long".
Proof. reflexivity. Qed.

Example classify_what_happened :
  @classify_question_length working_runtime (lit "What happened in chapter two") = lit "medium".
Proof. reflexivity. Qed.

(** ** The trace monad *)

Lemma bind_ok (A B : Type) (t : list event) (a : A) (k : A -> M B) :
  bind (t, Ok a) k = (t ++ fst (k a), snd (k a)).
Proof. unfold bind. destruct (k a). reflexivity. Qed.

Lemma bind_raise (A B : Type) (t : list event) (e : exn) (k : A -> M B) :
  bind (t, Raise e) k = (t, Raise e).
Proof. reflexivity. Qed.

Lemma bind_emit (B : Type) (e : event) (k : unit -> M B) :
  bind (emit e) k = (e :: fst (k tt), snd (k tt)).
Proof. unfold emit. rewrite bind_ok. reflexivity. Qed.

Lemma bind_lift_ok (A B : Type) (a : A) (k : A -> M B) :
  bind (lift (Ok a)) k = k a.
Proof. unfold lift. rewrite bind_ok. destruct (k a). reflexivity. Qed.

Lemma bind_lift_raise (A B : Type) (e : exn) (k : A -> M B) :
  bind (lift (Raise e)) k = ([], Raise e).
Proof. reflexivity. Qed.

Lemma bind_print (B : Type) (args : list str) (k : unit -> M B) :
  bind (print args) k = (EvPrint (join (lit " ") args) :: fst (k tt), snd (k tt)).
Proof. unfold print. apply bind_emit. Qed.

(** ** Document summary *)

Section Summary.

Context {RT : Runtime}.

(** The [for] loop over the chunks, when the pipeline answers [f chunk] on
    each of them: one invocation per chunk, in chunk order, and the
    summaries appended in the same order. *)
Lemma summarize_chunks_ok (f : str -> str) (cs acc : list str) :
  (forall c, In c cs -> summarizer c 200 50 = Ok (f c)) ->
  summarize_chunks cs acc =
    (map (fun c => EvSummarizer c 200 50) cs, Ok (acc ++ map f cs)).
Proof.
  revert acc. induction cs as [|c cs IH]; intros acc Hf; cbn [summarize_chunks].
  - simpl. rewrite app_nil_r. reflexivity.
  - unfold call_summarizer. rewrite bind_emit.
    rewrite (Hf c) by (left; reflexivity).
    cbn [lift fst snd]. rewrite bind_ok.
    rewrite IH by (intros d Hd; apply Hf; right; exact Hd).
    cbn [fst snd map app]. rewrite <- app_assoc. reflexivity.
Qed.

(** C5. [summarize_document], with its default chunk size, cuts the text
    into chunks of at most 800 characters that together make up the text,
    invokes the summarization pipeline once per chunk, on that chunk alone
    and in chunk order, and returns the summaries in chunk order with a
    single space between each two consecutive ones: the first summary,
    then every further summary with one space in front of it. *)
Theorem summarize_document_chunked (text : str) (f : str -> str) :
  (forall cs c, chunks text 800 = Ok cs -> In c cs ->
                summarizer c 200 50 = Ok (f c)) ->
  summarize_document_max_chunk_size = 800%Z /\
  exists cs final_summary,
    chunks text 800 = Ok cs /\
    concat cs = text /\
    (forall c, In c cs -> (len c <= 800)%Z) /\
    final_summary =
      match map f cs with
      | [] => []
      | first :: more => first ++ concat (map (fun s => lit " " ++ s) more)
      end /\
    summarize_document text summarize_document_max_chunk_size =
      ([EvPrint (nl :: lit "Generating summary...")]
         ++ map (fun c => EvSummarizer c 200 50) cs
         ++ [EvPrint ((nl :: lit "Summary:") ++ lit " " ++ final_summary)],
       Ok final_summary).
Proof.
  intros Hf. split; [reflexivity|].
  assert (H800 : (0 < 800)%Z) by lia.
  pose proof (chunks_positive text H800) as E.
  set (cs := map (chunk_at text (Z.to_nat 800)) (seq 0 (chunk_count text 800))) in E.
  exists cs, (join (lit " ") (map f cs)).
  split; [exact E|]. split; [exact (chunks_concat text H800)|]. split; [|split].
  - intros c Hc. exact (@chunks_length_le text 800 cs c H800 E Hc).
  - apply join_spaced.
  - unfold summarize_document, summarize_document_max_chunk_size.
    rewrite bind_print, E, bind_lift_ok.
    rewrite (summarize_chunks_ok f cs []) by (intros c Hc; exact (Hf cs c E Hc)).
    rewrite bind_ok, bind_print. reflexivity.
Qed.

End Summary.

(** On the 1800 characters of [long_sample] the summary is made of three
    chunk summaries, with one space after the first and after the second. *)
Lemma summarize_document_chunked_witness :
  exists cs,
    chunks long_sample 800 = Ok cs /\
    length cs = 3%nat /\
    concat cs = long_sample /\
    @summarize_document working_runtime long_sample summarize_document_max_chunk_size =
      ([EvPrint (nl :: lit "Generating summary...")]
         ++ map (fun c => EvSummarizer c 200 50) cs
         ++ [EvPrint ((nl :: lit "Summary:") ++ lit " " ++ lit "The c at to t on ")],
       Ok (lit "The c at to t on ")).
Proof.
  destruct (@summarize_document_chunked working_runtime long_sample (fun c => slice c 0 5))
    as [_ [cs [final_summary [E [Hcat [_ [Hfinal Hrun]]]]]]].
  - intros cs c _ _. reflexivity.
  - exists cs. split; [exact E|].
    assert (Ecs : cs = [slice long_sample 0 800; slice long_sample 800 1600;
                        slice long_sample 1600 2400]).
    { assert (E' : chunks long_sample 800 =
                   Ok [slice long_sample 0 800; slice long_sample 800 1600;
                       slice long_sample 1600 2400]) by (vm_compute; reflexivity).
      rewrite E in E'. injection E' as E'. exact E'. }
    split; [rewrite Ecs; reflexivity|]. split; [exact Hcat|].
    assert (Ef : final_summary = lit "The c at to t on ").
    { rewrite Hfinal, Ecs. vm_compute. reflexivity. }
    rewrite Hrun, Ef. reflexivity.
Defined.

(** ** Answering one query *)

Section Composer.

Context {RT : Runtime}.

Variables (text query best : str) (size : Z).

Hypothesis Hbest : find_best_chunk text query size = Ok best.

Lemma answer_query_short :
  classify_question_length query = lit "short" ->
  answer_query text query size =
    match qa_pipeline query best with
    | Ok answer =>
        ([EvQA query best;
          EvPrint ((nl :: lit "Answer (Short & Precise):") ++ lit " " ++ answer)],
         Ok tt)
    | Raise e => ([EvQA query best], Raise e)
    end.
Proof.
  intros Hc. unfold answer_query. rewrite Hbest, bind_lift_ok, Hc.
  replace (str_eqb (lit "short") (lit "short")) with true by reflexivity.
  unfold call_qa. rewrite bind_emit. cbn [lift fst snd].
  destruct (qa_pipeline query best) as [answer|e].
  - rewrite bind_ok. reflexivity.
  - reflexivity.
Qed.

Lemma answer_query_long :
  classify_question_length query = lit "long" ->
  answer_query text query size =
    match summarizer best 500 150 with
    | Ok detailed_answer =>
        ([EvPrint (nl :: lit "Generating a detailed response...");
          EvSummarizer best 500 150;
          EvPrint ((nl :: lit "Answer (Detailed):") ++ lit " " ++ detailed_answer)],
         Ok tt)
    | Raise e =>
        ([EvPrint (nl :: lit "Generating a detailed response...");
          EvSummarizer best 500 150],
         Raise e)
    end.
Proof.
  intros Hc. unfold answer_query. rewrite Hbest, bind_lift_ok, Hc.
  replace (str_eqb (lit "long") (lit "short")) with false by reflexivity.
  replace (str_eqb (lit "long") (lit "long")) with true by reflexivity.
  rewrite bind_print. unfold summarize_text, call_summarizer.
  rewrite bind_emit. cbn [lift fst snd].
  destruct (summarizer best 500 150) as [detailed_answer|e].
  - rewrite bind_ok. reflexivity.
  - reflexivity.
Qed.

Lemma answer_query_medium :
  classify_question_length query = lit "medium" ->
  answer_query text query size =
    match summarizer best 300 100 with
    | Ok medium_answer =>
        ([EvPrint (nl :: lit "Generating a well-explained response...");
          EvSummarizer best 300 100;
          EvPrint ((nl :: lit "Answer (Medium-Length Explanation):")
                     ++ lit " " ++ medium_answer)],
         Ok tt)
    | Raise e =>
        ([EvPrint (nl :: lit "Generating a well-explained response...");
          EvSummarizer best 300 100],
         Raise e)
    end.
Proof.
  intros Hc. unfold answer_query. rewrite Hbest, bind_lift_ok, Hc.
  replace (str_eqb (lit "medium") (lit "short")) with false by reflexivity.
  replace (str_eqb (lit "medium") (lit "long")) with false by reflexivity.
  rewrite bind_print. unfold summarize_text, call_summarizer.
  rewrite bind_emit. cbn [lift fst snd].
  destruct (summarizer best 300 100) as [medium_answer|e].
  - rewrite bind_ok. reflexivity.
  - reflexivity.
Qed.

End Composer.

(** ** The chat loop *)

Section ChatLoop.

Context {RT : Runtime}.

(** An iteration that reads the exit token. *)
Lemma chat_loop_exit (text query : str) (size : Z) (rest : list str) :
  lower query = lit "exit" ->
  chat_loop text size (query :: rest) =
    ([EvPrompt ask_prompt; EvPrint (lit "Goodbye!")], Ok tt, rest).
Proof.
  intros E. cbn [chat_loop]. rewrite E.
  replace (str_eqb (lit "exit") (lit "exit")) with true by reflexivity.
  reflexivity.
Qed.

(** An iteration that reads anything else. *)
Lemma chat_loop_query (text query : str) (size : Z) (rest : list str) :
  lower query <> lit "exit" ->
  chat_loop text size (query :: rest) =
    match answer_query text query size with
    | (t, Raise e) => (EvPrompt ask_prompt :: t, Raise e, rest)
    | (t, Ok _) =>
        (EvPrompt ask_prompt :: t ++ fst (fst (chat_loop text size rest)),
         snd (fst (chat_loop text size rest)),
         snd (chat_loop text size rest))
    end.
Proof.
  intros NE. cbn [chat_loop]. apply str_eqb_neq in NE. rewrite NE.
  destruct (answer_query text query size) as [t [u|e]]; [|reflexivity].
  destruct (chat_loop text size rest) as [[t' r] rest']. reflexivity.
Qed.

(** A run of queries that are all answered, followed by more input. *)
Lemma chat_loop_session (text : str) (size : Z) (qs more : list str) :
  (forall q, In q qs ->
             lower q <> lit "exit" /\
             snd (answer_query text q size) = Ok tt) ->
  chat_loop text size (qs ++ more) =
    (session_trace text size qs ++ fst (fst (chat_loop text size more)),
     snd (fst (chat_loop text size more)),
     snd (chat_loop text size more)).
Proof.
  induction qs as [|q qs IH]; intros Hqs.
  - simpl. destruct (chat_loop text size more) as [[t r] rest]. reflexivity.
  - destruct (Hqs q (or_introl eq_refl)) as [NE Hok].
    rewrite <- app_comm_cons, chat_loop_query by exact NE.
    destruct (answer_query text q size) as [t r] eqn:Ea.
    simpl in Hok. subst r.
    rewrite IH by (intros q' Hq'; apply Hqs; right; exact Hq').
    unfold session_trace. cbn [flat_map fst snd]. rewrite Ea. cbn [fst snd].
    rewrite <- app_comm_cons, app_assoc. reflexivity.
Qed.

(** C6. For a query other than the exit token, the loop runs the response
    composer on it, and the composer dispatches on the class of the query:
    "short" invokes the question-answering pipeline on the query and the
    selected chunk and prints its answer unchanged; "long" invokes the
    summarization pipeline on the selected chunk with maximum length 500 and
    minimum length 150; "medium" invokes it with 300 and 100. *)
Theorem chat_loop_dispatch (text query best : str) (size : Z) (rest : list str) :
  lower query <> lit "exit" ->
  find_best_chunk text query size = Ok best ->
  chat_loop text size (query :: rest) =
    match answer_query text query size with
    | (t, Raise e) => (EvPrompt ask_prompt :: t, Raise e, rest)
    | (t, Ok _) =>
        (EvPrompt ask_prompt :: t ++ fst (fst (chat_loop text size rest)),
         snd (fst (chat_loop text size rest)),
         snd (chat_loop text size rest))
    end /\
  (classify_question_length query = lit "short" ->
   answer_query text query size =
     match qa_pipeline query best with
     | Ok answer =>
         ([EvQA query best;
           EvPrint ((nl :: lit "Answer (Short & Precise):") ++ lit " " ++ answer)],
          Ok tt)
     | Raise e => ([EvQA query best], Raise e)
     end) /\
  (classify_question_length query = lit "long" ->
   answer_query text query size =
     match summarizer best 500 150 with
     | Ok detailed_answer =>
         ([EvPrint (nl :: lit "Generating a detailed response...");
           EvSummarizer best 500 150;
           EvPrint ((nl :: lit "Answer (Detailed):") ++ lit " " ++ detailed_answer)],
          Ok tt)
     | Raise e =>
         ([EvPrint (nl :: lit "Generating a detailed response...");
           EvSummarizer best 500 150],
          Raise e)
     end) /\
  (classify_question_length query = lit "medium" ->
   answer_query text query size =
     match summarizer best 300 100 with
     | Ok medium_answer =>
         ([EvPrint (nl :: lit "Generating a well-explained response...");
           EvSummarizer best 300 100;
           EvPrint ((nl :: lit "Answer (Medium-Length Explanation):")
                      ++ lit " " ++ medium_answer)],
          Ok tt)
     | Raise e =>
         ([EvPrint (nl :: lit "Generating a well-explained response...");
           EvSummarizer best 300 100],
          Raise e)
     end).
Proof.
  intros NE Hbest. split; [apply chat_loop_query; exact NE|].
  split; [|split].
  - apply answer_query_short. exact Hbest.
  - apply answer_query_long. exact Hbest.
  - apply answer_query_medium. exact Hbest.
Qed.

End ChatLoop.

Lemma chat_loop_dispatch_witness :
  @answer_query working_runtime (lit "The cat sat on the mat") (lit "Who sat?") 1500 =
    ([EvQA (lit "Who sat?") (lit "The cat sat on the mat");
      EvPrint ((nl :: lit "Answer (Short & Precise):") ++ lit " " ++ lit "The cat")],
     Ok tt).
Proof.
  destruct (@chat_loop_dispatch working_runtime
              (lit "The cat sat on the mat") (lit "Who sat?")
              (lit "The cat sat on the mat") 1500 [lit "exit"])
    as [_ [Hshort _]].
  - vm_compute. discriminate.
  - reflexivity.
  - exact (Hshort eq_refl).
Defined.

Section Failures.

Context {RT : Runtime}.

(** When the chunk selection itself raises, the composer raises before any
    collaborator is reached. *)
Lemma answer_query_no_chunk (text query : str) (size : Z) (e : exn) :
  find_best_chunk text query size = Raise e ->
  answer_query text query size = ([], Raise e).
Proof.
  intros E. unfold answer_query. rewrite E. apply bind_lift_raise.
Qed.

(** C2, as the program has it.  The loop has no handler: when the
    collaborator invoked for a query raises, the exception leaves
    [chat_with_document]; the trace ends at the failed invocation (the
    question-answering call for a short query, the progress line and the
    summarizer call for a long or medium one), nothing is printed after it,
    no further prompt is issued and the remaining input is left unread. *)
Theorem collaborator_failure_ends_chat
    (text query best : str) (size : Z) (rest : list str) (e : exn) :
  lower query <> lit "exit" ->
  find_best_chunk text query size = Ok best ->
  (classify_question_length query = lit "short" ->
   qa_pipeline query best = Raise e) ->
  (classify_question_length query = lit "long" ->
   summarizer best 500 150 = Raise e) ->
  (classify_question_length query = lit "medium" ->
   summarizer best 300 100 = Raise e) ->
  exists t,
    ((classify_question_length query = lit "short" /\
      t = [EvQA query best]) \/
     (classify_question_length query = lit "long" /\
      t = [EvPrint (nl :: lit "Generating a detailed response...");
           EvSummarizer best 500 150]) \/
     (classify_question_length query = lit "medium" /\
      t = [EvPrint (nl :: lit "Generating a well-explained response...");
           EvSummarizer best 300 100])) /\
    answer_query text query size = (t, Raise e) /\
    count_prompts t = 0%nat /\
    chat_loop text size (query :: rest) = (EvPrompt ask_prompt :: t, Raise e, rest) /\
    chat_with_document text size (query :: rest) =
      (EvPrint chat_banner :: EvPrompt ask_prompt :: t, Raise e, rest).
Proof.
  intros NE Hbest Hs Hl Hm.
  assert (Ha : exists t,
             ((classify_question_length query = lit "short" /\
               t = [EvQA query best]) \/
              (classify_question_length query = lit "long" /\
               t = [EvPrint (nl :: lit "Generating a detailed response...");
                    EvSummarizer best 500 150]) \/
              (classify_question_length query = lit "medium" /\
               t = [EvPrint (nl :: lit "Generating a well-explained response...");
                    EvSummarizer best 300 100])) /\
             answer_query text query size = (t, Raise e) /\
             count_prompts t = 0%nat).
  { destruct (classify_question_length_range query) as [Hc | [Hc | Hc]].
    - rewrite (@answer_query_short RT text query best size Hbest Hc), (Hs Hc).
      eexists. split; [left; split; [exact Hc | reflexivity]|].
      split; reflexivity.
    - rewrite (@answer_query_long RT text query best size Hbest Hc), (Hl Hc).
      eexists. split; [right; left; split; [exact Hc | reflexivity]|].
      split; reflexivity.
    - rewrite (@answer_query_medium RT text query best size Hbest Hc), (Hm Hc).
      eexists. split; [right; right; split; [exact Hc | reflexivity]|].
      split; reflexivity. }
  destruct Ha as [t [Hshape [Ea Hp]]]. exists t.
  assert (El : chat_loop text size (query :: rest) =
               (EvPrompt ask_prompt :: t, Raise e, rest)).
  { rewrite chat_loop_query by exact NE. rewrite Ea. reflexivity. }
  split; [exact Hshape|]. split; [exact Ea|]. split; [exact Hp|].
  split; [exact El|].
  unfold chat_with_document. rewrite El. reflexivity.
Qed.

(** C8. Whenever the line read is, case-insensitively, the token "exit",
    the loop prints the farewell and returns normally; between the prompt
    for that line and the return no collaborator is invoked, and the lines
    after it stay unread.  This holds at the first prompt and after any run
    of answered queries. *)
Theorem exit_ends_chat (text query : str) (size : Z) (qs rest : list str) :
  lower query = lit "exit" ->
  (forall q, In q qs ->
             lower q <> lit "exit" /\
             snd (answer_query text q size) = Ok tt) ->
  chat_with_document text size (qs ++ query :: rest) =
    (EvPrint chat_banner
       :: session_trace text size qs
       ++ [EvPrompt ask_prompt; EvPrint (lit "Goodbye!")],
     Ok tt, rest) /\
  no_collaborator_call [EvPrompt ask_prompt; EvPrint (lit "Goodbye!")] = true.
Proof.
  intros E Hqs. split; [|reflexivity].
  unfold chat_with_document.
  rewrite (@chat_loop_session RT text size qs (query :: rest) Hqs).
  rewrite (@chat_loop_exit RT text query size rest E). reflexivity.
Qed.

(** C9. [find_best_chunk] is partial: on the empty text the chunk list is
    empty and the call raises [ValueError], so an iteration of the chat loop
    on the empty text raises for every query that is not the exit token;
    on a non-empty text, with the chunk size of the loop, it returns. *)
Theorem find_best_chunk_requires_text :
  (forall query size,
     exists msg, find_best_chunk [] query size = Raise (ValueError msg)) /\
  chunks [] chat_with_document_max_chunk_size = Ok [] /\
  (forall query size rest,
     lower query <> lit "exit" ->
     exists msg,
       chat_loop [] size (query :: rest) =
         ([EvPrompt ask_prompt], Raise (ValueError msg), rest)) /\
  (forall text query,
     text <> [] ->
     exists c, find_best_chunk text query chat_with_document_max_chunk_size = Ok c).
Proof.
  split; [|split; [|split]].
  - intros query size. apply find_best_chunk_empty_text.
  - reflexivity.
  - intros query size rest NE.
    destruct (find_best_chunk_empty_text query size) as [msg E].
    exists msg. rewrite chat_loop_query by exact NE.
    rewrite (@answer_query_no_chunk [] query size _ E). reflexivity.
  - intros text query Hne.
    assert (Hs : (0 < chat_with_document_max_chunk_size)%Z) by reflexivity.
    destruct (chunks_nonempty Hs Hne) as [c0 [cs E]].
    unfold find_best_chunk. rewrite E. cbn [rbind].
    rewrite max_by_first_match. eauto.
Qed.

End Failures.

(** With the backends down: a short query stops at the question-answering
    call. *)
Lemma collaborator_failure_ends_chat_witness :
  @answer_query broken_runtime (lit "The cat sat on the mat") (lit "Who sat?") 1500 =
    ([EvQA (lit "Who sat?") (lit "The cat sat on the mat")],
     Raise (ExternalError "model unavailable")) /\
  @chat_loop broken_runtime (lit "The cat sat on the mat") 1500
     [lit "Who sat?"; lit "exit"] =
    ([EvPrompt ask_prompt; EvQA (lit "Who sat?") (lit "The cat sat on the mat")],
     Raise (ExternalError "model unavailable"), [lit "exit"]) /\
  @chat_with_document broken_runtime (lit "The cat sat on the mat") 1500
     [lit "Who sat?"; lit "exit"] =
    ([EvPrint chat_banner; EvPrompt ask_prompt;
      EvQA (lit "Who sat?") (lit "The cat sat on the mat")],
     Raise (ExternalError "model unavailable"), [lit "exit"]).
Proof.
  destruct (@collaborator_failure_ends_chat broken_runtime
              (lit "The cat sat on the mat") (lit "Who sat?")
              (lit "The cat sat on the mat") 1500 [lit "exit"]
              (ExternalError "model unavailable"))
    as [t [Hshape [Ea [_ [El Ec]]]]].
  - vm_compute. discriminate.
  - reflexivity.
  - intros _. reflexivity.
  - intros _. reflexivity.
  - intros _. reflexivity.
  - assert (Et : t = [EvQA (lit "Who sat?") (lit "The cat sat on the mat")]).
    { destruct Hshape as [[_ Et] | [[Hc _] | [Hc _]]];
        [exact Et | discriminate Hc | discriminate Hc]. }
    rewrite Ea, El, Ec, Et. repeat split; reflexivity.
Defined.

(** C2, as stated, fails: with the question-answering backend down, the
    query "Who sat?" ends the session with the exception; the line "exit"
    that follows is never read and only one prompt was issued. *)
Lemma chat_loop_failure_not_isolated :
  ~ @failure_is_isolated broken_runtime (lit "The cat sat on the mat") 1500
      (lit "Who sat?") [lit "exit"]
  /\ @chat_with_document broken_runtime (lit "The cat sat on the mat") 1500
       [lit "Who sat?"; lit "exit"] =
     ([EvPrint chat_banner; EvPrompt ask_prompt;
       EvQA (lit "Who sat?") (lit "The cat sat on the mat")],
      Raise (ExternalError "model unavailable"),
      [lit "exit"])
  /\ count_prompts
       (fst (fst (@chat_with_document broken_runtime (lit "The cat sat on the mat") 1500
                    [lit "Who sat?"; lit "exit"]))) = 1%nat.
Proof.
  split; [|split; reflexivity].
  intros H.
  destruct (H [EvQA (lit "Who sat?") (lit "The cat sat on the mat")]
              (ExternalError "model unavailable") eq_refl) as [report E].
  apply (f_equal (fun x => snd (fst x))) in E.
  vm_compute in E. discriminate E.
Qed.

Lemma exit_ends_chat_witness :
  @chat_with_document working_runtime (lit "The cat sat on the mat") 1500
     ([lit "Who sat?"] ++ lit "EXIT" :: [lit "more"]) =
    (EvPrint chat_banner
       :: @session_trace working_runtime (lit "The cat sat on the mat") 1500 [lit "Who sat?"]
       ++ [EvPrompt ask_prompt; EvPrint (lit "Goodbye!")],
     Ok tt, [lit "more"]) /\
  no_collaborator_call [EvPrompt ask_prompt; EvPrint (lit "Goodbye!")] = true.
Proof.
  apply (@exit_ends_chat working_runtime (lit "The cat sat on the mat") (lit "EXIT")
           1500 [lit "Who sat?"] [lit "more"]).
  - reflexivity.
  - intros q [<- | []]. split; [vm_compute; discriminate | reflexivity].
Defined.

(** ** Loading and the top level *)

Section TopLevel.

Context {RT : Runtime}.

(** The extension test of [load_document] never raises: [split] yields at
    least one part. *)
Lemma extension_defined (file_path : str) :
  exists last_part, index_last (split dot file_path) = Ok last_part.
Proof. apply index_last_defined. apply split_nonempty. Qed.

(** [load_document] on a text file: the contents, read verbatim. *)
Lemma load_document_txt (file_path last_part contents : str) :
  index_last (split dot file_path) = Ok last_part ->
  lower last_part = lit "txt" ->
  open_read file_path = Ok contents ->
  load_document file_path = ([], Ok (Some contents)).
Proof.
  intros El Ee Er. unfold load_document. rewrite El, bind_lift_ok, Ee.
  replace (str_eqb (lit "txt") (lit "pdf")) with false by reflexivity.
  replace (str_eqb (lit "txt") (lit "docx")) with false by reflexivity.
  replace (str_eqb (lit "txt") (lit "txt")) with true by reflexivity.
  unfold extract_text_from_txt. rewrite Er, bind_lift_ok. reflexivity.
Qed.

(** What the top level does once [load_document] has returned a value that
    is not a non-empty text. *)
Lemma main_no_text (line : str) (rest : list str) (t : list event)
    (document_text : option str) :
  os_path_exists (strip line) = true ->
  load_document (strip line) = (t, Ok document_text) ->
  truthy document_text = false ->
  main (line :: rest) = (EvPrompt path_prompt :: t, Ok tt, rest).
Proof.
  intros Hex Hl Ht. unfold main. rewrite Hex. cbn [negb]. rewrite Hl.
  destruct document_text as [text|]; [|reflexivity].
  rewrite Ht. reflexivity.
Qed.

(** C7. When the lowercased last dot-separated part of the path is none of
    pdf, docx, txt, [load_document] prints the unsupported-format message
    and returns [None] without raising; a run on that path then ends without
    the summary and without the chat loop: no collaborator is invoked, no
    question prompt is issued and the remaining input is left unread. *)
Theorem load_document_unsupported (file_path last_part : str) :
  index_last (split dot file_path) = Ok last_part ->
  ~ In (lower last_part) [lit "pdf"; lit "docx"; lit "txt"] ->
  load_document file_path = ([EvPrint unsupported_message], Ok None) /\
  (forall line rest,
     strip line = file_path ->
     os_path_exists file_path = true ->
     main (line :: rest) =
       ([EvPrompt path_prompt; EvPrint unsupported_message], Ok tt, rest)) /\
  (forall line rest,
     strip line = file_path ->
     exists t,
       main (line :: rest) = (EvPrompt path_prompt :: t, Ok tt, rest) /\
       count_prompts t = 0%nat /\
       no_collaborator_call t = true).
Proof.
  intros El Hn.
  assert (Hl : load_document file_path = ([EvPrint unsupported_message], Ok None)).
  { unfold load_document. rewrite El, bind_lift_ok.
    assert (Hpdf : str_eqb (lower last_part) (lit "pdf") = false).
    { apply str_eqb_neq. intros E. apply Hn. rewrite E. simpl. tauto. }
    assert (Hdocx : str_eqb (lower last_part) (lit "docx") = false).
    { apply str_eqb_neq. intros E. apply Hn. rewrite E. simpl. tauto. }
    assert (Htxt : str_eqb (lower last_part) (lit "txt") = false).
    { apply str_eqb_neq. intros E. apply Hn. rewrite E. simpl. tauto. }
    rewrite Hpdf, Hdocx, Htxt, bind_print. reflexivity. }
  split; [exact Hl|].
  assert (Hm : forall line rest,
             strip line = file_path ->
             os_path_exists file_path = true ->
             main (line :: rest) =
               ([EvPrompt path_prompt; EvPrint unsupported_message], Ok tt, rest)).
  { intros line rest <- Hex. apply (main_no_text line rest Hex Hl). reflexivity. }
  split; [exact Hm|].
  intros line rest Es.
  destruct (os_path_exists file_path) eqn:Hex.
  - rewrite (Hm line rest Es eq_refl).
    eexists. split; [reflexivity|]. split; reflexivity.
  - unfold main. rewrite Es, Hex. cbn [negb].
    eexists. split; [reflexivity|]. split; reflexivity.
Qed.

(** C10. At the top level a text that was extracted but is empty is handled
    like a load that returned nothing: once [load_document] has returned
    [""] or [None], the run ends normally right there; the success message
    is not printed, the summary is not produced and the chat loop is not
    entered, so the remaining input stays unread. *)
Theorem main_empty_text_as_failure
    (line : str) (rest : list str) (t : list event) (document_text : option str) :
  os_path_exists (strip line) = true ->
  load_document (strip line) = (t, Ok document_text) ->
  document_text = Some [] \/ document_text = None ->
  truthy document_text = false /\
  main (line :: rest) = (EvPrompt path_prompt :: t, Ok tt, rest).
Proof.
  intros Hex Hl Hd.
  assert (Ht : truthy document_text = false).
  { destruct Hd as [-> | ->]; reflexivity. }
  split; [exact Ht|]. exact (main_no_text line rest Hex Hl Ht).
Qed.

(** With a non-empty text the top level goes on: the success message, the
    summary, and then the chat loop on the remaining input. *)
Lemma main_with_text (line : str) (rest : list str) (t : list event)
    (text summary : str) (t1 : list event) :
  os_path_exists (strip line) = true ->
  load_document (strip line) = (t, Ok (Some text)) ->
  text <> [] ->
  summarize_document text summarize_document_max_chunk_size = (t1, Ok summary) ->
  main (line :: rest) =
    (EvPrompt path_prompt :: t
       ++ (EvPrint (nl :: check_mark :: lit " Document loaded successfully!") :: t1)
       ++ fst (fst (chat_with_document text chat_with_document_max_chunk_size rest)),
     snd (fst (chat_with_document text chat_with_document_max_chunk_size rest)),
     snd (chat_with_document text chat_with_document_max_chunk_size rest)).
Proof.
  intros Hex Hl Hne Hs. unfold main. rewrite Hex. cbn [negb]. rewrite Hl.
  destruct text as [|c text']; [congruence|]. cbn [truthy].
  rewrite bind_print, Hs. cbn [fst snd].
  destruct (chat_with_document (c :: text') chat_with_document_max_chunk_size rest)
    as [[t2 r] rest'].
  reflexivity.
Qed.

End TopLevel.

Lemma load_document_unsupported_witness :
  @load_document working_runtime (lit "paper.rtf")
    = ([EvPrint unsupported_message], Ok None) /\
  @main working_runtime [lit " paper.rtf "; lit "Who sat?"] =
    ([EvPrompt path_prompt; EvPrint unsupported_message], Ok tt, [lit "Who sat?"]).
Proof.
  destruct (@load_document_unsupported working_runtime (lit "paper.rtf") (lit "rtf"))
    as [Hload [Hmain _]].
  - reflexivity.
  - vm_compute. intros [H | [H | [H | []]]]; discriminate H.
  - split; [exact Hload|].
    apply (Hmain (lit " paper.rtf ") [lit "Who sat?"]); reflexivity.
Defined.

Lemma main_empty_text_as_failure_witness :
  truthy (Some []) = false /\
  @main working_runtime [lit "empty.txt"; lit "Who sat?"] =
    ([EvPrompt path_prompt], Ok tt, [lit "Who sat?"]).
Proof.
  apply (@main_empty_text_as_failure working_runtime
           (lit "empty.txt") [lit "Who sat?"] [] (Some [])).
  - reflexivity.
  - reflexivity.
  - left. reflexivity.
Defined.

(** * Further properties of the program *)

(** ** The chunking expression *)

Lemma chunk_count_ceiling (text : str) (size : Z) :
  (0 < size)%Z ->
  Z.of_nat (chunk_count text size) = ((len text + size - 1) / size)%Z.
Proof.
  intros Hs. unfold chunk_count, range_len.
  destruct (Z.ltb_spec 0 size); [|lia].
  assert (HL : (0 <= len text)%Z) by (unfold len; lia).
  destruct (Z.ltb_spec 0 (len text)).
  - replace (len text - 0 - 1)%Z with (len text - 1)%Z by lia.
    replace (len text + size - 1)%Z with (len text - 1 + 1 * size)%Z by lia.
    rewrite Z.div_add by lia.
    assert (0 <= (len text - 1) / size)%Z by (apply Z.div_pos; lia).
    lia.
  - replace (len text) with 0%Z by lia. simpl Z.to_nat.
    rewrite Z.div_small by lia. reflexivity.
Qed.

(** Where the [k]-th chunk sits in the text. *)
Lemma chunk_at_position (text : str) (size : Z) (k : nat) :
  (0 < size)%Z -> (k < chunk_count text size)%nat ->
  exists pre post,
    text = pre ++ chunk_at text (Z.to_nat size) k ++ post /\
    len pre = (Z.of_nat k * size)%Z /\
    (1 <= len (chunk_at text (Z.to_nat size) k) <= size)%Z.
Proof.
  intros Hs Hk.
  assert (Hne : text <> []).
  { intros ->. rewrite chunk_count_empty in Hk. lia. }
  pose proof (chunk_count_bounds Hs Hne) as [_ [Hlo _]]. simpl in Hlo.
  set (s := Z.to_nat size) in *.
  assert (Hks : (k * s < length text)%nat) by nia.
  exists (firstn (k * s) text), (skipn s (skipn (k * s) text)). split; [|split].
  - unfold chunk_at. rewrite (firstn_skipn s (skipn (k * s) text)).
    symmetry. apply firstn_skipn.
  - unfold len. rewrite length_firstn. subst s. nia.
  - unfold len. rewrite chunk_at_length. subst s. lia.
Qed.

(** X1. For a positive chunk size the number of chunks is the length of the
    text divided by the size, rounded up. *)
Theorem chunks_count (text : str) (size : Z) :
  (0 < size)%Z ->
  exists cs,
    chunks text size = Ok cs /\
    len cs = ((len text + size - 1) / size)%Z.
Proof.
  intros Hs. eexists. split; [apply chunks_positive; exact Hs|].
  unfold len at 1. rewrite length_map, length_seq.
  apply chunk_count_ceiling. exact Hs.
Qed.

Lemma chunks_count_witness :
  exists cs,
    chunks (lit "The cat sat on the mat today") 11 = Ok cs /\
    len cs = ((len (lit "The cat sat on the mat today") + 11 - 1) / 11)%Z.
Proof.
  apply (@chunks_count (lit "The cat sat on the mat today") 11). lia.
Defined.

(** X2. For a positive chunk size, chunk number [k] starts at offset
    [k * size] of the text, is never empty and never longer than [size]. *)
Theorem chunks_nth_position (text : str) (size : Z) (cs : list str) (k : nat) (c : str) :
  (0 < size)%Z ->
  chunks text size = Ok cs ->
  nth_error cs k = Some c ->
  exists pre post,
    text = pre ++ c ++ post /\
    len pre = (Z.of_nat k * size)%Z /\
    (1 <= len c <= size)%Z.
Proof.
  intros Hs E Hk. rewrite chunks_positive in E by exact Hs.
  injection E as <-. apply nth_error_chunk in Hk as [Hlt ->].
  apply chunk_at_position; assumption.
Qed.

Lemma chunks_nth_position_witness :
  exists pre post,
    lit "The cat sat on the mat today" = pre ++ lit " on the mat" ++ post /\
    len pre = (Z.of_nat 1 * 11)%Z /\
    (1 <= len (lit " on the mat") <= 11)%Z.
Proof.
  apply (@chunks_nth_position (lit "The cat sat on the mat today") 11
           [lit "The cat sat"; lit " on the mat"; lit " today"] 1 (lit " on the mat")).
  - lia.
  - reflexivity.
  - reflexivity.
Defined.

(** [range(0, stop, step)] for a step that is not positive and a stop that
    is not negative: an error for step zero, no item otherwise. *)
Lemma range_nonpositive_step (stop step : Z) :
  (0 <= stop)%Z -> (step <= 0)%Z ->
  range 0 stop step =
    if (step =? 0)%Z then Raise (ValueError "range() arg 3 must not be zero")
    else Ok [].
Proof.
  intros Hstop Hs. unfold range.
  destruct (Z.eqb_spec step 0); [reflexivity|].
  unfold range_len. destruct (Z.ltb_spec 0 step); [lia|].
  destruct (Z.ltb_spec stop 0); [lia|]. reflexivity.
Qed.

(** X3. With a chunk size that is not positive the chunking expression does
    not cut anything: a zero size makes [range] raise [ValueError], and a
    negative size yields no chunk at all, whatever the text. *)
Theorem chunks_nonpositive_size (text : str) (size : Z) :
  (size <= 0)%Z ->
  chunks text size =
    if (size =? 0)%Z then Raise (ValueError "range() arg 3 must not be zero")
    else Ok [].
Proof.
  intros Hs. unfold chunks.
  rewrite range_nonpositive_step by (unfold len; lia).
  destruct (size =? 0)%Z; reflexivity.
Qed.

Lemma chunks_nonpositive_size_witness :
  chunks (lit "The cat sat on the mat today") (-3) = Ok [].
Proof.
  apply (@chunks_nonpositive_size (lit "The cat sat on the mat today") (-3)). lia.
Defined.

(** ** Chunk selection, continued *)

Section ChunkSelectionMore.

Context {RT : Runtime}.

(** X4. A non-empty text that fits in one chunk is returned whole, whatever
    the query. *)
Theorem find_best_chunk_short_text (text query : str) (size : Z) :
  text <> [] -> (len text <= size)%Z ->
  find_best_chunk text query size = Ok text.
Proof.
  intros Hne Hle.
  assert (HL : (0 < len text)%Z).
  { unfold len. destruct text; [congruence | simpl; lia]. }
  assert (Hs : (0 < size)%Z) by lia.
  unfold find_best_chunk. rewrite chunks_positive by exact Hs.
  assert (Hc : chunk_count text size = 1%nat).
  { apply Nat2Z.inj. rewrite chunk_count_ceiling by exact Hs.
    symmetry. apply (Z.div_unique _ _ 1 (len text - 1)); lia. }
  rewrite Hc. cbn [seq map rbind max_by max_scan]. f_equal.
  unfold chunk_at. cbn [Nat.mul skipn]. apply firstn_all2.
  unfold len in Hle. lia.
Qed.

(** X5. With a chunk size that is not positive [find_best_chunk] raises
    [ValueError] on every text and every query. *)
Theorem find_best_chunk_nonpositive_size (text query : str) (size : Z) :
  (size <= 0)%Z ->
  exists msg, find_best_chunk text query size = Raise (ValueError msg).
Proof.
  intros Hs. unfold find_best_chunk, chunks.
  rewrite range_nonpositive_step by (unfold len; lia).
  destruct (size =? 0)%Z; simpl; eauto.
Qed.

End ChunkSelectionMore.

Lemma find_best_chunk_short_text_witness :
  @find_best_chunk working_runtime
     (lit "The cat sat on the mat") (lit "dog") chat_with_document_max_chunk_size
  = Ok (lit "The cat sat on the mat").
Proof.
  apply (@find_best_chunk_short_text working_runtime
           (lit "The cat sat on the mat") (lit "dog") chat_with_document_max_chunk_size).
  - discriminate.
  - vm_compute. discriminate.
Defined.

Lemma find_best_chunk_nonpositive_size_witness :
  exists msg,
    @find_best_chunk working_runtime (lit "The cat sat on the mat") (lit "cat") (-5)
    = Raise (ValueError msg).
Proof.
  apply (@find_best_chunk_nonpositive_size working_runtime
           (lit "The cat sat on the mat") (lit "cat") (-5)).
  lia.
Defined.

Lemma max_scan_In (A : Type) (key : A -> bool) (best : A) (xs : list A) :
  In (max_scan key best xs) (best :: xs).
Proof.
  revert best. induction xs as [|x xs IH]; intros best; simpl; [left; reflexivity|].
  destruct (negb (key best) && key x).
  - right. apply IH.
  - destruct (IH best) as [H | H]; [left; exact H | right; right; exact H].
Qed.

(** [max] returns one of the items it was given. *)
Lemma max_by_In (A : Type) (key : A -> bool) (xs : list A) (x : A) :
  max_by key xs = Ok x -> In x xs.
Proof.
  destruct xs as [|y ys]; simpl; [discriminate|].
  intros E. injection E as <-. apply max_scan_In.
Qed.

Section ChunkSelectionPieces.

Context {RT : Runtime}.

(** The selected chunk is one of the chunks. *)
Lemma find_best_chunk_in_chunks (text query : str) (size : Z) :
  text <> [] -> (0 < size)%Z ->
  exists cs c,
    chunks text size = Ok cs /\
    find_best_chunk text query size = Ok c /\
    In c cs.
Proof.
  intros Hne Hs. destruct (chunks_nonempty Hs Hne) as [c0 [cs' E]].
  unfold find_best_chunk. rewrite E. cbn [rbind].
  exists (c0 :: cs'), (max_scan (fun chunk => contains (lower query) (lower chunk)) c0 cs').
  split; [reflexivity|]. split; [reflexivity|]. apply max_scan_In.
Qed.

(** X6. On a non-empty text and with a positive chunk size, what
    [find_best_chunk] returns is a contiguous piece of the text that starts
    at a multiple of the chunk size, is not empty and is at most one chunk
    size long. *)
Theorem find_best_chunk_piece (text query : str) (size : Z) :
  text <> [] -> (0 < size)%Z ->
  exists c k pre post,
    find_best_chunk text query size = Ok c /\
    text = pre ++ c ++ post /\
    len pre = (Z.of_nat k * size)%Z /\
    (1 <= len c <= size)%Z.
Proof.
  intros Hne Hs.
  destruct (@find_best_chunk_in_chunks text query size Hne Hs) as [cs [c [E [Ef Hin]]]].
  apply In_nth_error in Hin as [k Hk].
  rewrite chunks_positive in E by exact Hs. injection E as <-.
  apply nth_error_chunk in Hk as [Hlt ->].
  destruct (@chunk_at_position text size k Hs Hlt) as [pre [post H]].
  exists (chunk_at text (Z.to_nat size) k), k, pre, post.
  split; [exact Ef | exact H].
Qed.

(** X7. On a non-empty text and with a positive chunk size, handling one
    query invokes exactly one collaborator, whether or not that invocation
    succeeds; the document text it is given is the selected chunk, so never
    more than one chunk size of characters; and no prompt is issued while the
    query is handled. *)
Theorem answer_query_one_call (text query : str) (size : Z) :
  text <> [] -> (0 < size)%Z ->
  exists best,
    find_best_chunk text query size = Ok best /\
    (len best <= size)%Z /\
    count_calls (fst (answer_query text query size)) = 1%nat /\
    call_contexts (fst (answer_query text query size)) = [best] /\
    count_prompts (fst (answer_query text query size)) = 0%nat.
Proof.
  intros Hne Hs.
  destruct (@find_best_chunk_in_chunks text query size Hne Hs) as [cs [best [E [Ef Hin]]]].
  exists best. split; [exact Ef|].
  split; [exact (@chunks_length_le text size cs best Hs E Hin)|].
  destruct (classify_question_length_range query) as [Hc | [Hc | Hc]].
  - rewrite (@answer_query_short RT text query best size Ef Hc).
    destruct (qa_pipeline query best); repeat split; reflexivity.
  - rewrite (@answer_query_long RT text query best size Ef Hc).
    destruct (summarizer best 500 150); repeat split; reflexivity.
  - rewrite (@answer_query_medium RT text query best size Ef Hc).
    destruct (summarizer best 300 100); repeat split; reflexivity.
Qed.

End ChunkSelectionPieces.

Lemma find_best_chunk_piece_witness :
  exists c k pre post,
    @find_best_chunk working_runtime (lit "The cat sat on the mat today") (lit "MAT") 11 = Ok c /\
    lit "The cat sat on the mat today" = pre ++ c ++ post /\
    len pre = (Z.of_nat k * 11)%Z /\
    (1 <= len c <= 11)%Z.
Proof.
  apply (@find_best_chunk_piece working_runtime
           (lit "The cat sat on the mat today") (lit "MAT") 11);
    [discriminate | lia].
Defined.

Lemma answer_query_one_call_witness :
  exists best,
    @find_best_chunk broken_runtime (lit "The cat sat on the mat today") (lit "Why?") 11
      = Ok best /\
    (len best <= 11)%Z /\
    count_calls (fst (@answer_query broken_runtime
                        (lit "The cat sat on the mat today") (lit "Why?") 11)) = 1%nat /\
    call_contexts (fst (@answer_query broken_runtime
                          (lit "The cat sat on the mat today") (lit "Why?") 11)) = [best] /\
    count_prompts (fst (@answer_query broken_runtime
                          (lit "The cat sat on the mat today") (lit "Why?") 11)) = 0%nat.
Proof.
  apply (@answer_query_one_call broken_runtime
           (lit "The cat sat on the mat today") (lit "Why?") 11);
    [discriminate | lia].
Defined.

(** ** Classification, continued *)

Lemma Substring_trans (a b c : str) :
  Substring a b -> Substring b c -> Substring a c.
Proof.
  intros [p1 [q1 ->]] [p2 [q2 ->]].
  exists (p2 ++ p1), (q1 ++ q2). rewrite <- !app_assoc. reflexivity.
Qed.

Section ClassificationMore.

Context {RT : Runtime}.

(** X8. The class depends on the lowercased question only through the cues
    that occur in it, so it can only move towards "short" when the question
    grows: if the lowercased [question] occurs inside the lowercased
    [longer], then "short" for [question] gives "short" for [longer], a
    class other than "medium" for [question] gives one other than "medium"
    for [longer], and "medium" for [longer] gives "medium" for [question]. *)
Theorem classify_question_length_monotone (question longer : str) :
  Substring (lower question) (lower longer) ->
  (classify_question_length question = lit "short" ->
   classify_question_length longer = lit "short") /\
  (classify_question_length question <> lit "medium" ->
   classify_question_length longer <> lit "medium") /\
  (classify_question_length longer = lit "medium" ->
   classify_question_length question = lit "medium").
Proof.
  intros Hsub.
  assert (Hup : forall keywords,
            any (fun keyword => contains keyword (lower question)) keywords = true ->
            any (fun keyword => contains keyword (lower longer)) keywords = true).
  { intros keywords H. apply any_Substring in H as [k [Hin Hk]].
    apply any_Substring. exists k. split; [exact Hin|].
    exact (Substring_trans Hk Hsub). }
  unfold classify_question_length.
  destruct (any _ short_keywords) eqn:Hs1.
  - rewrite (Hup _ Hs1). repeat split; try reflexivity; try discriminate.
  - destruct (any (fun keyword => contains keyword (lower question)) long_keywords) eqn:Hl1.
    + rewrite (Hup _ Hl1).
      destruct (any (fun keyword => contains keyword (lower longer)) short_keywords);
        repeat split; try reflexivity; try discriminate.
    + destruct (any (fun keyword => contains keyword (lower longer)) short_keywords);
        [|destruct (any (fun keyword => contains keyword (lower longer)) long_keywords)];
        repeat split; try reflexivity; try discriminate;
        intros H; try (exfalso; apply H; reflexivity).
Qed.

End ClassificationMore.

Lemma classify_question_length_monotone_witness :
  @classify_question_length working_runtime (lit "Explain WHEN? it rains") = lit "short".
Proof.
  apply (@classify_question_length_monotone working_runtime
           (lit "When?") (lit "Explain WHEN? it rains")).
  - exists (lit "explain "), (lit " it rains"). reflexivity.
  - reflexivity.
Defined.

(** ** The document summary, continued *)

Lemma call_contexts_app (t1 t2 : list event) :
  call_contexts (t1 ++ t2) = call_contexts t1 ++ call_contexts t2.
Proof.
  induction t1 as [|ev t1 IH]; [reflexivity|].
  destruct ev; simpl; rewrite IH; reflexivity.
Qed.

Lemma count_calls_app (t1 t2 : list event) :
  count_calls (t1 ++ t2) = (count_calls t1 + count_calls t2)%nat.
Proof.
  induction t1 as [|ev t1 IH]; [reflexivity|].
  destruct ev; simpl; rewrite IH; reflexivity.
Qed.

Lemma call_contexts_summarizer_calls (cs : list str) (a b : Z) :
  call_contexts (map (fun c => EvSummarizer c a b) cs) = cs.
Proof. induction cs as [|c cs IH]; simpl; [|rewrite IH]; reflexivity. Qed.

Lemma count_calls_summarizer_calls (cs : list str) (a b : Z) :
  count_calls (map (fun c => EvSummarizer c a b) cs) = length cs.
Proof. induction cs as [|c cs IH]; simpl; [|rewrite IH]; reflexivity. Qed.

Section SummaryMore.

Context {RT : Runtime}.

(** The loop over the chunks stops at the first chunk the pipeline fails on. *)
Lemma summarize_chunks_stops (f : str -> str) (pre : list str) (c : str)
    (post acc : list str) (e : exn) :
  (forall d, In d pre -> summarizer d 200 50 = Ok (f d)) ->
  summarizer c 200 50 = Raise e ->
  summarize_chunks (pre ++ c :: post) acc =
    (map (fun d => EvSummarizer d 200 50) (pre ++ [c]), Raise e).
Proof.
  revert acc. induction pre as [|d pre IH]; intros acc Hf He.
  - cbn [app summarize_chunks]. unfold call_summarizer.
    rewrite bind_emit, He. reflexivity.
  - cbn [app summarize_chunks]. unfold call_summarizer.
    rewrite bind_emit, (Hf d) by (left; reflexivity).
    cbn [lift fst snd]. rewrite bind_ok.
    rewrite IH by (try exact He; intros d' Hd'; apply Hf; right; exact Hd').
    reflexivity.
Qed.

(** The whole of [summarize_document] when the pipeline answers on every
    chunk, for any chunk size. *)
Lemma summarize_document_ok (text : str) (size : Z) (cs : list str) (f : str -> str) :
  chunks text size = Ok cs ->
  (forall c, In c cs -> summarizer c 200 50 = Ok (f c)) ->
  summarize_document text size =
    (EvPrint (nl :: lit "Generating summary...")
       :: map (fun c => EvSummarizer c 200 50) cs
       ++ [EvPrint ((nl :: lit "Summary:") ++ lit " " ++ join (lit " ") (map f cs))],
     Ok (join (lit " ") (map f cs))).
Proof.
  intros E Hf. unfold summarize_document.
  rewrite bind_print, E, bind_lift_ok.
  rewrite (summarize_chunks_ok f cs [] Hf).
  rewrite bind_ok, bind_print. reflexivity.
Qed.

(** The whole of [summarize_document] when the pipeline fails on a chunk
    after answering on the chunks before it. *)
Lemma summarize_document_raises (text : str) (size : Z) (f : str -> str)
    (pre : list str) (c : str) (post : list str) (e : exn) :
  chunks text size = Ok (pre ++ c :: post) ->
  (forall d, In d pre -> summarizer d 200 50 = Ok (f d)) ->
  summarizer c 200 50 = Raise e ->
  summarize_document text size =
    (EvPrint (nl :: lit "Generating summary...")
       :: map (fun d => EvSummarizer d 200 50) (pre ++ [c]),
     Raise e).
Proof.
  intros E Hf He. unfold summarize_document. rewrite bind_print, E, bind_lift_ok.
  rewrite (summarize_chunks_stops f pre c post [] Hf He). reflexivity.
Qed.

(** X9. When the summarization pipeline fails on a chunk,
    [summarize_document] raises that failure at once: the chunks before it
    have been submitted, the chunks after it never are, and no summary line
    is printed. *)
Theorem summarize_document_stops_at_failure
    (text : str) (size : Z) (f : str -> str)
    (pre : list str) (c : str) (post : list str) (e : exn) :
  chunks text size = Ok (pre ++ c :: post) ->
  (forall d, In d pre -> summarizer d 200 50 = Ok (f d)) ->
  summarizer c 200 50 = Raise e ->
  summarize_document text size =
    (EvPrint (nl :: lit "Generating summary...")
       :: map (fun d => EvSummarizer d 200 50) (pre ++ [c]),
     Raise e) /\
  call_contexts (fst (summarize_document text size)) = pre ++ [c] /\
  printed (fst (summarize_document text size)) = [nl :: lit "Generating summary..."].
Proof.
  intros E Hf He.
  pose proof (@summarize_document_raises text size f pre c post e E Hf He) as Hd.
  split; [exact Hd|]. rewrite Hd. cbn [fst call_contexts printed]. split.
  - apply call_contexts_summarizer_calls.
  - generalize (pre ++ [c]). intros l. induction l as [|x l IH]; [reflexivity|exact IH].
Qed.

(** X10. When there is nothing to cut, because the chunk size is not
    positive or the text is empty, [summarize_document] invokes no
    collaborator: for size zero it raises [ValueError] right after its
    header line, and otherwise it prints an empty summary and returns the
    empty string. *)
Theorem summarize_document_degenerate (text : str) (size : Z) :
  (size <= 0)%Z \/ text = [] ->
  summarize_document text size =
    if (size =? 0)%Z
    then ([EvPrint (nl :: lit "Generating summary...")],
          Raise (ValueError "range() arg 3 must not be zero"))
    else ([EvPrint (nl :: lit "Generating summary...");
           EvPrint ((nl :: lit "Summary:") ++ lit " ")],
          Ok []).
Proof.
  intros H.
  assert (E : chunks text size =
              if (size =? 0)%Z
              then Raise (ValueError "range() arg 3 must not be zero")
              else Ok []).
  { destruct H as [Hs | ->].
    - unfold chunks. rewrite range_nonpositive_step by (unfold len; lia).
      destruct (size =? 0)%Z; reflexivity.
    - apply chunks_empty_text. }
  unfold summarize_document. rewrite bind_print, E.
  destruct (size =? 0)%Z; reflexivity.
Qed.

(** X11. When the pipeline answers on every chunk, the texts
    [summarize_document] submits to it, concatenated in the order of the
    invocations, are exactly the document: nothing is dropped, repeated or
    reordered; and the number of invocations is the length of the document
    divided by 800, rounded up. *)
Theorem summarize_document_submits_document (text : str) (f : str -> str) :
  (forall cs c, chunks text 800 = Ok cs -> In c cs ->
                summarizer c 200 50 = Ok (f c)) ->
  concat (call_contexts (fst (summarize_document text summarize_document_max_chunk_size)))
    = text /\
  Z.of_nat (count_calls (fst (summarize_document text summarize_document_max_chunk_size)))
    = ((len text + 799) / 800)%Z.
Proof.
  intros Hf. assert (H800 : (0 < 800)%Z) by lia.
  pose proof (chunks_positive text H800) as E.
  set (cs := map (chunk_at text (Z.to_nat 800)) (seq 0 (chunk_count text 800))) in E.
  unfold summarize_document_max_chunk_size.
  rewrite (@summarize_document_ok text 800 cs f E (fun c Hc => Hf cs c E Hc)).
  cbn [fst call_contexts count_calls].
  rewrite call_contexts_app, count_calls_app.
  rewrite call_contexts_summarizer_calls, count_calls_summarizer_calls.
  cbn [call_contexts count_calls]. rewrite app_nil_r, Nat.add_0_r. split.
  - exact (chunks_concat text H800).
  - subst cs. rewrite length_map, length_seq.
    rewrite chunk_count_ceiling by exact H800. f_equal. lia.
Qed.

End SummaryMore.

Lemma summarize_document_stops_at_failure_witness :
  @summarize_document picky_runtime (lit "The cat sat on the mat today and slept") 11 =
    (EvPrint (nl :: lit "Generating summary...")
       :: map (fun d => EvSummarizer d 200 50) ([lit "The cat sat"] ++ [lit " on the mat"]),
     Raise (ExternalError "malformed input")) /\
  call_contexts (fst (@summarize_document picky_runtime
                        (lit "The cat sat on the mat today and slept") 11))
    = [lit "The cat sat"] ++ [lit " on the mat"] /\
  printed (fst (@summarize_document picky_runtime
                  (lit "The cat sat on the mat today and slept") 11))
    = [nl :: lit "Generating summary..."].
Proof.
  apply (@summarize_document_stops_at_failure picky_runtime
           (lit "The cat sat on the mat today and slept") 11
           (fun d => slice d 0 5)
           [lit "The cat sat"] (lit " on the mat") [lit " today and "; lit "slept"]
           (ExternalError "malformed input")).
  - reflexivity.
  - intros d [<- | []]; reflexivity.
  - reflexivity.
Defined.

Lemma summarize_document_degenerate_witness :
  @summarize_document working_runtime [] 800 =
    ([EvPrint (nl :: lit "Generating summary...");
      EvPrint ((nl :: lit "Summary:") ++ lit " ")],
     Ok []).
Proof.
  apply (@summarize_document_degenerate working_runtime [] 800).
  right. reflexivity.
Defined.

Lemma summarize_document_submits_document_witness :
  concat (call_contexts (fst (@summarize_document working_runtime long_sample
                                summarize_document_max_chunk_size)))
    = long_sample /\
  Z.of_nat (count_calls (fst (@summarize_document working_runtime long_sample
                                summarize_document_max_chunk_size)))
    = ((len long_sample + 799) / 800)%Z /\
  ((len long_sample + 799) / 800 = 3)%Z.
Proof.
  split; [|split; [|reflexivity]];
    apply (@summarize_document_submits_document working_runtime
             long_sample (fun c => slice c 0 5));
    intros cs c _ _; reflexivity.
Defined.

(** ** The extension of a path *)

Lemma split_app_sep (sep : char) (a b : str) :
  split sep (a ++ sep :: b) = split sep a ++ split sep b.
Proof.
  induction a as [|c a IH]; cbn [app split].
  - unfold char_eqb. rewrite N.eqb_refl. reflexivity.
  - destruct (char_eqb c sep); rewrite IH; [reflexivity|].
    pose proof (@split_nonempty sep a) as Hne.
    destruct (split sep a) as [|w ws]; [congruence | reflexivity].
Qed.

Lemma split_without_sep (sep : char) (s : str) :
  ~ In sep s -> split sep s = [s].
Proof.
  induction s as [|c s IH]; intros Hn; simpl; [reflexivity|].
  destruct (char_eqb c sep) eqn:Ec.
  - apply char_eqb_eq in Ec. subst c. exfalso. apply Hn. left. reflexivity.
  - rewrite IH; [reflexivity|]. intros H. apply Hn. right. exact H.
Qed.

Lemma index_last_app (A : Type) (l1 l2 : list A) :
  l2 <> [] -> index_last (l1 ++ l2) = index_last l2.
Proof.
  intros Hne. induction l1 as [|x l1 IH]; [reflexivity|].
  cbn [app index_last]. destruct (l1 ++ l2) as [|y l] eqn:E; [|exact IH].
  destruct l1; [simpl in E; congruence | discriminate].
Qed.

(** The part of [s] after its last occurrence of [sep]; all of [s] when
    [sep] does not occur. *)
Lemma index_last_split_suffix (sep : char) (s ext : str) :
  index_last (split sep s) = Ok ext ->
  ~ In sep ext /\ (s = ext \/ exists stem, s = stem ++ sep :: ext).
Proof.
  revert ext. induction s as [|c s IH]; intros ext.
  - simpl. intros E. injection E as <-. split; [intros [] | left; reflexivity].
  - cbn [split]. destruct (char_eqb c sep) eqn:Ec.
    + apply char_eqb_eq in Ec. subst c.
      pose proof (@split_nonempty sep s) as Hne.
      cbn [index_last]. destruct (split sep s) as [|w ws] eqn:Es; [congruence|].
      intros E. destruct (IH ext E) as [Hn [-> | [stem ->]]].
      * split; [exact Hn|]. right. exists []. reflexivity.
      * split; [exact Hn|]. right. exists (sep :: stem). reflexivity.
    + pose proof (@split_nonempty sep s) as Hne.
      destruct (split sep s) as [|w ws] eqn:Es; [congruence|].
      destruct ws as [|w2 ws].
      * cbn [index_last]. intros E. injection E as <-.
        destruct (IH w eq_refl) as [Hn [-> | [stem Hs]]].
        -- split; [|left; reflexivity].
           intros [H | H]; [|exact (Hn H)].
           subst c. unfold char_eqb in Ec. rewrite N.eqb_refl in Ec. discriminate.
        -- exfalso.
           assert (Hs' : split sep s = split sep stem ++ split sep w).
           { rewrite Hs. apply split_app_sep. }
           rewrite Es in Hs'.
           pose proof (@split_nonempty sep stem) as H1.
           pose proof (@split_nonempty sep w) as H2.
           destruct (split sep stem) as [|x xs]; [congruence|].
           destruct (split sep w) as [|y ys]; [congruence|].
           destruct xs; discriminate Hs'.
      * intros E. change (index_last (w2 :: ws) = Ok ext) in E.
        assert (E' : index_last (w :: w2 :: ws) = Ok ext) by exact E.
        destruct (IH ext E') as [Hn [-> | [stem ->]]].
        -- exfalso. rewrite (@split_without_sep sep ext Hn) in Es. discriminate Es.
        -- split; [exact Hn|]. right. exists (c :: stem). reflexivity.
Qed.

(** X12. The extension [load_document] looks at,
    [file_path.split(".")[-1]], is what follows the last dot of the path,
    and the whole path when it has no dot: it never contains a dot, and a
    string [ext] is that extension exactly when it has no dot and the path
    is [ext] itself or ends in a dot followed by [ext]. *)
Theorem extension_after_last_dot (file_path ext : str) :
  index_last (split dot file_path) = Ok ext <->
  ~ In dot ext /\ (file_path = ext \/ exists stem, file_path = stem ++ dot :: ext).
Proof.
  split; [apply index_last_split_suffix|].
  intros [Hn [-> | [stem ->]]].
  - rewrite (@split_without_sep dot ext Hn). reflexivity.
  - rewrite split_app_sep, index_last_app by apply split_nonempty.
    rewrite (@split_without_sep dot ext Hn). reflexivity.
Qed.

(** ** Loading, continued *)

(** Splitting a joined list at the separator gives the list back, when no
    part contains the separator. *)
Lemma split_join (sep : char) (parts : list str) :
  parts <> [] -> (forall p, In p parts -> ~ In sep p) ->
  split sep (join [sep] parts) = parts.
Proof.
  induction parts as [|p more IH]; [congruence|]. intros _ Hn.
  destruct more as [|q more].
  - apply split_without_sep. apply Hn. left. reflexivity.
  - change (join [sep] (p :: q :: more)) with (p ++ sep :: join [sep] (q :: more)).
    rewrite split_app_sep.
    rewrite (@split_without_sep sep p (Hn p (or_introl eq_refl))).
    rewrite IH; [reflexivity | discriminate |].
    intros p' Hp'. apply Hn. right. exact Hp'.
Qed.

Section LoadingMore.

Context {RT : Runtime}.

Lemma load_document_pdf (file_path last_part : str) :
  index_last (split dot file_path) = Ok last_part ->
  lower last_part = lit "pdf" ->
  load_document file_path =
    ([], match fitz_open file_path with
         | Ok pages => Ok (Some (join [nl] pages))
         | Raise e => Raise e
         end).
Proof.
  intros El Ee. unfold load_document. rewrite El, bind_lift_ok, Ee.
  replace (str_eqb (lit "pdf") (lit "pdf")) with true by reflexivity.
  unfold extract_text_from_pdf.
  destruct (fitz_open file_path) as [pages|e]; [|reflexivity].
  rewrite bind_lift_ok. reflexivity.
Qed.

Lemma load_document_docx (file_path last_part : str) :
  index_last (split dot file_path) = Ok last_part ->
  lower last_part = lit "docx" ->
  load_document file_path =
    ([], match docx_Document file_path with
         | Ok paras => Ok (Some (join [nl] paras))
         | Raise e => Raise e
         end).
Proof.
  intros El Ee. unfold load_document. rewrite El, bind_lift_ok, Ee.
  replace (str_eqb (lit "docx") (lit "pdf")) with false by reflexivity.
  replace (str_eqb (lit "docx") (lit "docx")) with true by reflexivity.
  unfold extract_text_from_docx.
  destruct (docx_Document file_path) as [paras|e]; [|reflexivity].
  rewrite bind_lift_ok. reflexivity.
Qed.

Lemma load_document_text (file_path last_part : str) :
  index_last (split dot file_path) = Ok last_part ->
  lower last_part = lit "txt" ->
  load_document file_path =
    ([], match open_read file_path with
         | Ok contents => Ok (Some contents)
         | Raise e => Raise e
         end).
Proof.
  intros El Ee. unfold load_document. rewrite El, bind_lift_ok, Ee.
  replace (str_eqb (lit "txt") (lit "pdf")) with false by reflexivity.
  replace (str_eqb (lit "txt") (lit "docx")) with false by reflexivity.
  replace (str_eqb (lit "txt") (lit "txt")) with true by reflexivity.
  unfold extract_text_from_txt.
  destruct (open_read file_path) as [contents|e]; [|reflexivity].
  rewrite bind_lift_ok. reflexivity.
Qed.

Lemma load_document_other (file_path last_part : str) :
  index_last (split dot file_path) = Ok last_part ->
  ~ In (lower last_part) [lit "pdf"; lit "docx"; lit "txt"] ->
  load_document file_path = ([EvPrint unsupported_message], Ok None).
Proof.
  intros El Hn. unfold load_document. rewrite El, bind_lift_ok.
  assert (Hpdf : str_eqb (lower last_part) (lit "pdf") = false).
  { apply str_eqb_neq. intros E. apply Hn. rewrite E. simpl. tauto. }
  assert (Hdocx : str_eqb (lower last_part) (lit "docx") = false).
  { apply str_eqb_neq. intros E. apply Hn. rewrite E. simpl. tauto. }
  assert (Htxt : str_eqb (lower last_part) (lit "txt") = false).
  { apply str_eqb_neq. intros E. apply Hn. rewrite E. simpl. tauto. }
  rewrite Hpdf, Hdocx, Htxt, bind_print. reflexivity.
Qed.

(** The four ways [load_document] can go, by the lowercased extension. *)
Lemma load_document_cases (file_path : str) :
  exists last_part,
    index_last (split dot file_path) = Ok last_part /\
    ((In (lower last_part) [lit "pdf"; lit "docx"; lit "txt"] /\
      fst (load_document file_path) = [] /\
      snd (load_document file_path) <> Ok None) \/
     (~ In (lower last_part) [lit "pdf"; lit "docx"; lit "txt"] /\
      load_document file_path = ([EvPrint unsupported_message], Ok None))).
Proof.
  destruct (extension_defined file_path) as [last_part El].
  exists last_part. split; [exact El|].
  destruct (str_eqb (lower last_part) (lit "pdf")) eqn:E1.
  { apply str_eqb_eq in E1. left. split; [rewrite E1; simpl; tauto|].
    rewrite (load_document_pdf file_path El E1).
    destruct (fitz_open file_path); split; simpl; congruence. }
  destruct (str_eqb (lower last_part) (lit "docx")) eqn:E2.
  { apply str_eqb_eq in E2. left. split; [rewrite E2; simpl; tauto|].
    rewrite (load_document_docx file_path El E2).
    destruct (docx_Document file_path); split; simpl; congruence. }
  destruct (str_eqb (lower last_part) (lit "txt")) eqn:E3.
  { apply str_eqb_eq in E3. left. split; [rewrite E3; simpl; tauto|].
    rewrite (load_document_text file_path El E3).
    destruct (open_read file_path); split; simpl; congruence. }
  apply str_eqb_neq in E1, E2, E3.
  assert (Hn : ~ In (lower last_part) [lit "pdf"; lit "docx"; lit "txt"]).
  { intros [H | [H | [H | []]]]; congruence. }
  right. split; [exact Hn|]. exact (load_document_other file_path El Hn).
Qed.

(** X13. For a path whose lowercased extension is pdf, when the file opens
    with the page texts [parts] (for docx: with the paragraph texts
    [parts]), [load_document] prints nothing and returns the parts in their
    order with exactly one newline between neighbours: the first part, then
    every further part with a newline in front of it.  The length of the
    text is that of the parts plus one per gap, and when there is a part and
    no part contains a newline, splitting the text at the newlines gives the
    parts back. *)
Theorem load_document_joins_parts (file_path last_part : str) (parts : list str) :
  index_last (split dot file_path) = Ok last_part ->
  (lower last_part = lit "pdf" /\ fitz_open file_path = Ok parts) \/
  (lower last_part = lit "docx" /\ docx_Document file_path = Ok parts) ->
  exists text,
    load_document file_path = ([], Ok (Some text)) /\
    text = match parts with
           | [] => []
           | first :: more => first ++ concat (map (fun q => nl :: q) more)
           end /\
    (len text = len (concat parts)
                + (len parts - (if len parts =? 0 then 0 else 1)))%Z /\
    (parts <> [] -> (forall p, In p parts -> ~ In nl p) -> split nl text = parts).
Proof.
  intros El H. exists (join [nl] parts).
  split; [|split; [|split]].
  - destruct H as [[Ee Eo] | [Ee Eo]].
    + rewrite (load_document_pdf file_path El Ee), Eo. reflexivity.
    + rewrite (load_document_docx file_path El Ee), Eo. reflexivity.
  - apply (join_spaced [nl] parts).
  - rewrite join_length. change (len [nl]) with 1%Z. lia.
  - apply split_join.
Qed.

(** X14. [load_document] returns [None] exactly for the paths whose
    lowercased extension is none of pdf, docx, txt; for the others it
    returns a text or raises. *)
Theorem load_document_none_iff_unsupported (file_path last_part : str) :
  index_last (split dot file_path) = Ok last_part ->
  (snd (load_document file_path) = Ok None <->
   ~ In (lower last_part) [lit "pdf"; lit "docx"; lit "txt"]).
Proof.
  intros El.
  destruct (load_document_cases file_path) as [lp [El' H]].
  rewrite El in El'. injection El' as <-.
  destruct H as [[Hin [_ Hno]] | [Hn Hl]].
  - split; [intros E; congruence | intros Hn; destruct (Hn Hin)].
  - split; [intros _; exact Hn | intros _; rewrite Hl; reflexivity].
Qed.

(** The trace of [load_document] holds neither a prompt nor a collaborator
    invocation. *)
Lemma load_document_quiet (file_path : str) :
  count_prompts (fst (load_document file_path)) = 0%nat /\
  count_calls (fst (load_document file_path)) = 0%nat.
Proof.
  destruct (load_document_cases file_path) as [lp [_ [[_ [Ht _]] | [_ Hl]]]].
  - rewrite Ht. split; reflexivity.
  - rewrite Hl. split; reflexivity.
Qed.

End LoadingMore.

Lemma load_document_joins_parts_witness :
  @load_document library_runtime (lit "Report.PDF") =
    ([], Ok (Some (lit "Page one" ++ nl :: lit "Page two" ++ nl :: lit "Page three"))) /\
  split nl (lit "Page one" ++ nl :: lit "Page two" ++ nl :: lit "Page three")
    = [lit "Page one"; lit "Page two"; lit "Page three"].
Proof.
  destruct (@load_document_joins_parts library_runtime (lit "Report.PDF") (lit "PDF")
              [lit "Page one"; lit "Page two"; lit "Page three"])
    as [text [El [Et [_ Hsplit]]]].
  - reflexivity.
  - left. split; reflexivity.
  - assert (Ex : text = lit "Page one" ++ nl :: lit "Page two" ++ nl :: lit "Page three").
    { rewrite Et. reflexivity. }
    rewrite <- Ex. split; [exact El|].
    apply Hsplit; [discriminate|].
    intros p [<- | [<- | [<- | []]]]; vm_compute;
      intros H; repeat (destruct H as [H | H]; [discriminate H|]); exact H.
Defined.

Lemma load_document_none_iff_unsupported_witness :
  snd (@load_document working_runtime (lit "archive.tar.gz")) = Ok None <->
  ~ In (@lower working_runtime (lit "gz")) [lit "pdf"; lit "docx"; lit "txt"].
Proof.
  apply (@load_document_none_iff_unsupported working_runtime
           (lit "archive.tar.gz") (lit "gz")).
  reflexivity.
Defined.

(** ** The top level, continued *)

Section TopLevelMore.

Context {RT : Runtime}.

(** X15. The summary and the chat are reached only with a text in hand: when
    the path does not exist, or [load_document] raises, or it returns
    [None] or the empty string, the run issues no prompt after the one for
    the path, invokes no collaborator, does not print the success message
    and leaves the remaining input unread. *)
Theorem main_without_text (line : str) (rest : list str) :
  os_path_exists (strip line) = false \/
  (forall text, snd (load_document (strip line)) = Ok (Some text) -> text = []) ->
  exists t r,
    main (line :: rest) = (EvPrompt path_prompt :: t, r, rest) /\
    count_prompts t = 0%nat /\
    count_calls t = 0%nat /\
    ~ In (EvPrint success_message) t.
Proof.
  intros H. destruct (os_path_exists (strip line)) eqn:Hex.
  - destruct H as [H | H]; [discriminate|].
    destruct (load_document_quiet (strip line)) as [Hp Hc].
    assert (Hs : ~ In (EvPrint success_message) (fst (load_document (strip line)))).
    { destruct (load_document_cases (strip line)) as [lp [_ [[_ [Ht _]] | [_ Hl]]]].
      - rewrite Ht. intros [].
      - rewrite Hl. intros [E | []]. discriminate E. }
    destruct (load_document (strip line)) as [t [document_text | e]] eqn:El.
    + exists t, (Ok tt). cbn [fst] in Hp, Hc, Hs.
      split; [|split; [exact Hp | split; [exact Hc | exact Hs]]].
      apply (@main_no_text RT line rest t document_text Hex El).
      destruct document_text as [text|]; [|reflexivity].
      rewrite (H text eq_refl). reflexivity.
    + exists t, (Raise e). cbn [fst] in Hp, Hc, Hs.
      split; [|split; [exact Hp | split; [exact Hc | exact Hs]]].
      unfold main. rewrite Hex. cbn [negb]. rewrite El. reflexivity.
  - exists [EvPrint (cross_mark :: lit " File not found.")], (Ok tt).
    split; [|split; [reflexivity | split; [reflexivity|]]].
    + unfold main. rewrite Hex. reflexivity.
    + intros [E | []]. discriminate E.
Qed.

(** X16. A whole session.  When the path exists, the document loads to a
    non-empty text, the summary succeeds, the queries [qs] are answered and
    the next line is the exit token, the run ends normally and its trace is,
    in this order: the path prompt, what loading printed, the success
    message, the summary, the chat banner, one prompt and one answer per
    query, the last prompt and the farewell; later lines stay unread. *)
Theorem main_session (line : str) (qs : list str) (query : str) (rest : list str)
    (t : list event) (text summary : str) (t1 : list event) :
  os_path_exists (strip line) = true ->
  load_document (strip line) = (t, Ok (Some text)) ->
  text <> [] ->
  summarize_document text summarize_document_max_chunk_size = (t1, Ok summary) ->
  (forall q, In q qs ->
             lower q <> lit "exit" /\
             snd (answer_query text q chat_with_document_max_chunk_size) = Ok tt) ->
  lower query = lit "exit" ->
  main (line :: qs ++ query :: rest) =
    (EvPrompt path_prompt :: t
       ++ (EvPrint success_message :: t1)
       ++ EvPrint chat_banner
       :: session_trace text chat_with_document_max_chunk_size qs
       ++ [EvPrompt ask_prompt; EvPrint (lit "Goodbye!")],
     Ok tt, rest).
Proof.
  intros Hex Hl Hne Hs Hqs He.
  rewrite (@main_with_text RT line (qs ++ query :: rest) t text summary t1 Hex Hl Hne Hs).
  unfold chat_with_document.
  rewrite (@chat_loop_session RT text chat_with_document_max_chunk_size
             qs (query :: rest) Hqs).
  rewrite (@chat_loop_exit RT text query chat_with_document_max_chunk_size rest He).
  reflexivity.
Qed.

(** X17. When the summarization pipeline fails on a chunk of the loaded
    document while the start-up summary is produced, the run raises that
    failure: the trace ends at the failed invocation, after the success
    message, the summary header and the invocations for the chunks before
    it; the chat loop is not entered and the remaining input is left
    unread. *)
Theorem main_summary_failure (line : str) (rest : list str)
    (t : list event) (text : str) (f : str -> str)
    (pre : list str) (c : str) (post : list str) (e : exn) :
  os_path_exists (strip line) = true ->
  load_document (strip line) = (t, Ok (Some text)) ->
  text <> [] ->
  chunks text summarize_document_max_chunk_size = Ok (pre ++ c :: post) ->
  (forall d, In d pre -> summarizer d 200 50 = Ok (f d)) ->
  summarizer c 200 50 = Raise e ->
  main (line :: rest) =
    (EvPrompt path_prompt :: t
       ++ EvPrint success_message
       :: EvPrint (nl :: lit "Generating summary...")
       :: map (fun d => EvSummarizer d 200 50) (pre ++ [c]),
     Raise e, rest).
Proof.
  intros Hex Hl Hne E Hf He.
  pose proof (@summarize_document_raises RT text summarize_document_max_chunk_size
                f pre c post e E Hf He) as Hs.
  unfold main. rewrite Hex. cbn [negb]. rewrite Hl.
  destruct text as [|c0 text']; [congruence|]. cbn [truthy].
  rewrite bind_print, Hs. reflexivity.
Qed.

End TopLevelMore.

Lemma main_without_text_witness :
  exists t r,
    @main broken_runtime [lit "missing.pdf"; lit "Who sat?"] =
      (EvPrompt path_prompt :: t, r, [lit "Who sat?"]) /\
    count_prompts t = 0%nat /\
    count_calls t = 0%nat /\
    ~ In (EvPrint success_message) t.
Proof.
  apply (@main_without_text broken_runtime (lit "missing.pdf") [lit "Who sat?"]).
  left. reflexivity.
Defined.

Lemma main_session_witness :
  @main working_runtime
     (lit " notes.txt " :: [lit "Who sat?"] ++ lit "Exit" :: [lit "more"]) =
    (EvPrompt path_prompt :: []
       ++ (EvPrint success_message
             :: fst (@summarize_document working_runtime
                       (lit "The cat sat on the mat today")
                       summarize_document_max_chunk_size))
       ++ EvPrint chat_banner
       :: @session_trace working_runtime (lit "The cat sat on the mat today")
            chat_with_document_max_chunk_size [lit "Who sat?"]
       ++ [EvPrompt ask_prompt; EvPrint (lit "Goodbye!")],
     Ok tt, [lit "more"]).
Proof.
  apply (@main_session working_runtime (lit " notes.txt ") [lit "Who sat?"]
           (lit "Exit") [lit "more"] [] (lit "The cat sat on the mat today")
           (lit "The c")).
  - reflexivity.
  - reflexivity.
  - discriminate.
  - reflexivity.
  - intros q [<- | []]. split; [vm_compute; discriminate | reflexivity].
  - reflexivity.
Defined.

Lemma main_summary_failure_witness :
  @main library_runtime [lit "long.txt"; lit "Who sat?"] =
    (EvPrompt path_prompt
       :: [] ++ EvPrint success_message
       :: EvPrint (nl :: lit "Generating summary...")
       :: map (fun d => EvSummarizer d 200 50)
              ([slice long_sample 0 800] ++ [slice long_sample 800 1600]),
     Raise (ExternalError "malformed input"), [lit "Who sat?"]).
Proof.
  apply (@main_summary_failure library_runtime (lit "long.txt") [lit "Who sat?"]
           [] long_sample (fun d => slice d 0 5)
           [slice long_sample 0 800] (slice long_sample 800 1600)
           [slice long_sample 1600 2400]).
  - reflexivity.
  - reflexivity.
  - discriminate.
  - vm_compute. reflexivity.
  - intros d [<- | []]. vm_compute. reflexivity.
  - vm_compute. reflexivity.
Defined.

(** ** The chat loop, continued *)

Lemma count_prompts_app (t1 t2 : list event) :
  count_prompts (t1 ++ t2) = (count_prompts t1 + count_prompts t2)%nat.
Proof.
  induction t1 as [|ev t1 IH]; [reflexivity|].
  destruct ev; simpl; rewrite IH; reflexivity.
Qed.

Section ChatLoopMore.

Context {RT : Runtime}.

(** Handling a query never prompts. *)
Lemma answer_query_no_prompt (text query : str) (size : Z) :
  count_prompts (fst (answer_query text query size)) = 0%nat.
Proof.
  destruct (find_best_chunk text query size) as [best|e] eqn:Eb.
  - destruct (classify_question_length_range query) as [Hc | [Hc | Hc]].
    + rewrite (@answer_query_short RT text query best size Eb Hc).
      destruct (qa_pipeline query best); reflexivity.
    + rewrite (@answer_query_long RT text query best size Eb Hc).
      destruct (summarizer best 500 150); reflexivity.
    + rewrite (@answer_query_medium RT text query best size Eb Hc).
      destruct (summarizer best 300 100); reflexivity.
  - rewrite (@answer_query_no_chunk RT text query size e Eb). reflexivity.
Qed.

(** X18. When the input runs out before the exit token is read, the loop
    ends in [EOFError], after one prompt per line read and one more for the
    line that is not there. *)
Theorem chat_loop_end_of_input (text : str) (size : Z) (qs : list str) :
  (forall q, In q qs ->
             lower q <> lit "exit" /\
             snd (answer_query text q size) = Ok tt) ->
  chat_loop text size qs =
    (session_trace text size qs ++ [EvPrompt ask_prompt], Raise EOFError, []) /\
  count_prompts (fst (fst (chat_loop text size qs))) = S (length qs).
Proof.
  intros Hqs.
  assert (E : chat_loop text size qs =
              (session_trace text size qs ++ [EvPrompt ask_prompt], Raise EOFError, [])).
  { rewrite <- (app_nil_r qs) at 1.
    rewrite (@chat_loop_session RT text size qs [] Hqs). reflexivity. }
  split; [exact E|]. rewrite E. cbn [fst]. clear E.
  induction qs as [|q qs IH]; [reflexivity|].
  unfold session_trace. cbn [flat_map app count_prompts].
  rewrite <- app_assoc. f_equal.
  rewrite count_prompts_app, answer_query_no_prompt. cbn [Nat.add].
  apply IH. intros q' Hq'. apply Hqs. right. exact Hq'.
Qed.

(** X19. The loop returns normally only through the exit token: whenever
    [chat_loop] ends without an exception, the input it consumed is a run of
    queries, none of them the exit token and each answered without failure,
    followed by a line that is the exit token, and the trace is the answers
    to those queries followed by the last prompt and the farewell. *)
Theorem chat_loop_returns_only_on_exit
    (text : str) (size : Z) (stdin : list str) (t : list event) (rest : list str) :
  chat_loop text size stdin = (t, Ok tt, rest) ->
  exists qs query,
    stdin = qs ++ query :: rest /\
    lower query = lit "exit" /\
    (forall q, In q qs ->
               lower q <> lit "exit" /\
               snd (answer_query text q size) = Ok tt) /\
    t = session_trace text size qs ++ [EvPrompt ask_prompt; EvPrint (lit "Goodbye!")].
Proof.
  revert t. induction stdin as [|line stdin IH]; intros t E.
  - simpl in E. discriminate E.
  - destruct (str_eqb (lower line) (lit "exit")) eqn:Ee.
    + apply str_eqb_eq in Ee.
      rewrite (@chat_loop_exit RT text line size stdin Ee) in E.
      injection E as <- <-. exists [], line.
      split; [reflexivity|]. split; [exact Ee|]. split; [intros q []|reflexivity].
    + apply str_eqb_neq in Ee.
      rewrite (@chat_loop_query RT text line size stdin Ee) in E.
      destruct (answer_query text line size) as [ta [u|e]] eqn:Ea; [|discriminate E].
      destruct (chat_loop text size stdin) as [[t' r'] rest'] eqn:El.
      cbn [fst snd] in E. injection E as <- -> ->.
      destruct (IH t' eq_refl) as [qs [query [-> [Hq [Hqs ->]]]]].
      exists (line :: qs), query.
      split; [reflexivity|]. split; [exact Hq|]. split.
      * intros q [<- | Hin]; [|exact (Hqs q Hin)].
        split; [exact Ee|]. rewrite Ea. destruct u. reflexivity.
      * unfold session_trace. cbn [flat_map]. rewrite Ea. cbn [fst].
        fold (session_trace text size qs).
        rewrite <- app_assoc. reflexivity.
Qed.

End ChatLoopMore.

Lemma chat_loop_end_of_input_witness :
  @chat_loop working_runtime (lit "The cat sat on the mat") 1500
     [lit "Who sat?"; lit "Why?"] =
    (@session_trace working_runtime (lit "The cat sat on the mat") 1500
       [lit "Who sat?"; lit "Why?"] ++ [EvPrompt ask_prompt],
     Raise EOFError, []) /\
  count_prompts (fst (fst (@chat_loop working_runtime (lit "The cat sat on the mat") 1500
                             [lit "Who sat?"; lit "Why?"]))) = 3%nat.
Proof.
  apply (@chat_loop_end_of_input working_runtime (lit "The cat sat on the mat") 1500
           [lit "Who sat?"; lit "Why?"]).
  intros q [<- | [<- | []]]; (split; [vm_compute; discriminate | reflexivity]).
Defined.

Lemma chat_loop_returns_only_on_exit_witness :
  exists qs query,
    [lit "Who sat?"; lit "eXiT"; lit "more"] = qs ++ query :: [lit "more"] /\
    @lower working_runtime query = lit "exit" /\
    (forall q, In q qs ->
               @lower working_runtime q <> lit "exit" /\
               snd (@answer_query working_runtime (lit "The cat sat on the mat") q 1500)
                 = Ok tt) /\
    fst (fst (@chat_loop working_runtime (lit "The cat sat on the mat") 1500
                [lit "Who sat?"; lit "eXiT"; lit "more"]))
      = @session_trace working_runtime (lit "The cat sat on the mat") 1500 qs
          ++ [EvPrompt ask_prompt; EvPrint (lit "Goodbye!")].
Proof.
  apply (@chat_loop_returns_only_on_exit working_runtime
           (lit "The cat sat on the mat") 1500
           [lit "Who sat?"; lit "eXiT"; lit "more"]).
  reflexivity.
Defined.

(** The empty string occurs in every string. *)
Lemma contains_empty (s : str) : contains [] s = true.
Proof. destruct s; reflexivity. Qed.

Section EmptyQuery.

Context {RT : Runtime}.

(** X20. A query whose lowercased form is empty, such as an empty line,
    carries no cue and occurs in every chunk: it is classified "medium",
    the chunk selected for it is the first one, the opening characters of
    the text, and that chunk is what the one collaborator invocation
    receives. *)
Theorem empty_query_takes_first_chunk (text query : str) (size : Z) :
  lower query = [] -> text <> [] -> (0 < size)%Z ->
  classify_question_length query = lit "medium" /\
  find_best_chunk text query size = Ok (firstn (Z.to_nat size) text) /\
  call_contexts (fst (answer_query text query size)) = [firstn (Z.to_nat size) text].
Proof.
  intros Hl Hne Hs.
  assert (Hc : classify_question_length query = lit "medium").
  { unfold classify_question_length. rewrite Hl. reflexivity. }
  assert (Hb : find_best_chunk text query size = Ok (firstn (Z.to_nat size) text)).
  { unfold find_best_chunk. rewrite chunks_positive by exact Hs.
    pose proof (chunk_count_bounds Hs Hne) as [Hn _]. simpl in Hn.
    destruct (chunk_count text size) as [|n]; [lia|].
    cbn [seq map rbind max_by]. rewrite Hl.
    rewrite max_scan_keeps_true by apply contains_empty. reflexivity. }
  split; [exact Hc|]. split; [exact Hb|].
  rewrite (@answer_query_medium RT text query _ size Hb Hc).
  destruct (summarizer (firstn (Z.to_nat size) text) 300 100); reflexivity.
Qed.

End EmptyQuery.

Lemma empty_query_takes_first_chunk_witness :
  @classify_question_length working_runtime [] = lit "medium" /\
  @find_best_chunk working_runtime (lit "The cat sat on the mat today") [] 11
    = Ok (firstn (Z.to_nat 11) (lit "The cat sat on the mat today")) /\
  call_contexts (fst (@answer_query working_runtime
                        (lit "The cat sat on the mat today") [] 11))
    = [firstn (Z.to_nat 11) (lit "The cat sat on the mat today")].
Proof.
  apply (@empty_query_takes_first_chunk working_runtime
           (lit "The cat sat on the mat today") [] 11).
  - reflexivity.
  - discriminate.
  - lia.
Defined.
